(** * Configuration manager of package [config] (omeyang/practices)

    A shallow embedding of the Go package that keeps one configuration
    snapshot current: [CfgManager] (initial load, filesystem-event driven
    reload with bounded retry, watch management) and [NewParser] (decoder
    selection by file extension).

    Conventions of the embedding.
    - A Go pointer [*entity.AppConf] is an [option AppConf] ([None] is the
      nil pointer); a Go [error] is an [option string] ([None] is nil).
    - Go [int] and [time.Duration] are 64-bit signed integers, carried as
      [Z] with the wrap-around of [attempt++] written out.
    - The collaborators behind interfaces ([CfgLoader], [WatcherInterface])
      are scripts: the result of a call is a function of how many calls the
      collaborator has already received.
    - Every call on a collaborator, every log record, every sleep, every
      channel send and every [go] statement is appended to a trace.
    - A method is a function from the manager's state to an [Outcome]:
      it returns, panics, parks its goroutine on a lock or channel, or the
      model runs out of fuel (only the retry loop consumes fuel).
    - The loader and the logger handed to NewConfigManager are live values;
      the watcher may be nil, and cleanupWatcher makes it so. *)

From Stdlib Require Import ZArith List String Bool Lia Ascii.
Import ListNotations.
Open Scope string_scope.
Open Scope Z_scope.

(** ** Basic Go types *)

Definition error := option string.

(* package entity *)
Record PrometheusConf := mkPrometheusConf {
  Enable : bool;
  Port : Z;
  Address : string
}.

Record AppConf := mkAppConf {
  PrometheusCfg : option PrometheusConf
}.

Definition ConfPtr := option AppConf.

Definition max_int64 : Z := 2 ^ 63 - 1.
Definition min_int64 : Z := - 2 ^ 63.

(* Two's complement wrap-around of a 64-bit signed integer. *)
Definition wrap64 (z : Z) : Z := (z + 2 ^ 63) mod 2 ^ 64 - 2 ^ 63.

(* A buffered channel: capacity and queued values, oldest first. *)
Record Chan (A : Type) := mkChan {
  cap : nat;
  buf : list A
}.
Arguments mkChan {A} _ _.
Arguments cap {A} _.
Arguments buf {A} _.

Definition make_chan (A : Type) (n : nat) : Chan A := mkChan n [].

(** ** fsnotify events (github.com/fsnotify/fsnotify) *)

(* Op is a uint32 bitmask: Create Op = 1 << iota; Write; Remove; Rename; Chmod *)
Definition Create : Z := 1.
Definition Write : Z := 2.
Definition Remove : Z := 4.
Definition Rename : Z := 8.
Definition Chmod : Z := 16.

Record Event := mkEvent {
  Name : string;
  Op : Z
}.

(** ** Collaborators *)

(* CfgLoader: LoadConfig's result on its i-th call (counting from 0), and
   the configured path. *)
Record CfgLoader := mkCfgLoader {
  LoadConfig : nat -> ConfPtr * error;
  GetConfigPath : string
}.

(* WatcherInterface: the results of Add, Remove and Close, given the number
   of calls the watcher has received before.  Events() and Errors() are the
   two streams the event loop selects on; what they deliver is the script
   handed to [handleFSNotify]. *)
Record WatcherInterface := mkWatcher {
  wAdd : nat -> string -> error;
  wRemove : nat -> string -> error;
  wClose : nat -> error
}.

Record RetryPolicy := mkRetryPolicy {
  MaxAttempts : Z;
  Timeout : Z
}.

(** ** Observable effects *)

Inductive Level := InfoLevel | ErrorLevel.

Inductive Field :=
| zapError (e : error)
| zapString (key val : string)
| zapInt (key : string) (val : Z).

Inductive Effect :=
| EvLoadConfig (r : ConfPtr * error)
| EvWatcherAdd (path : string) (r : error)
| EvWatcherRemove (path : string) (r : error)
| EvWatcherClose (r : error)
| EvSleep (d : Z)
| EvSendError (e : error)
| EvGo
| EvLog (l : Level) (msg : string) (fields : list Field).

Inductive LoopState := NotStarted | Running | Exited.

(** ** The manager

    The fields of the Go struct, followed by the bookkeeping of the world
    around it: the trace, the call counters that index the collaborators'
    scripts, the state of the background task, and the value of a send on
    [errorChan] that is blocked because the channel is full. *)
Record CfgManager := mkCfgManager {
  loader : CfgLoader;
  config : option ConfPtr;          (* atomic.Value: None until the first Store *)
  configChan : Chan ConfPtr;
  errorChan : Chan error;
  watcher : option WatcherInterface;
  rwMutex : bool;                   (* true while the write lock is held *)
  once : bool;                      (* sync.Once: true once Do has run *)
  retryPolicy : RetryPolicy;
  trace : list Effect;
  loaderCalls : nat;
  watcherCalls : nat;
  eventLoop : LoopState;
  pendingSend : option error
}.

Definition set_config (v : option ConfPtr) (cm : CfgManager) : CfgManager :=
  mkCfgManager (loader cm) v (configChan cm) (errorChan cm) (watcher cm)
    (rwMutex cm) (once cm) (retryPolicy cm) (trace cm) (loaderCalls cm)
    (watcherCalls cm) (eventLoop cm) (pendingSend cm).

Definition set_errorChan (v : Chan error) (cm : CfgManager) : CfgManager :=
  mkCfgManager (loader cm) (config cm) (configChan cm) v (watcher cm)
    (rwMutex cm) (once cm) (retryPolicy cm) (trace cm) (loaderCalls cm)
    (watcherCalls cm) (eventLoop cm) (pendingSend cm).

Definition set_watcher (v : option WatcherInterface) (cm : CfgManager) : CfgManager :=
  mkCfgManager (loader cm) (config cm) (configChan cm) (errorChan cm) v
    (rwMutex cm) (once cm) (retryPolicy cm) (trace cm) (loaderCalls cm)
    (watcherCalls cm) (eventLoop cm) (pendingSend cm).

Definition set_rwMutex (v : bool) (cm : CfgManager) : CfgManager :=
  mkCfgManager (loader cm) (config cm) (configChan cm) (errorChan cm) (watcher cm)
    v (once cm) (retryPolicy cm) (trace cm) (loaderCalls cm)
    (watcherCalls cm) (eventLoop cm) (pendingSend cm).

Definition set_once (v : bool) (cm : CfgManager) : CfgManager :=
  mkCfgManager (loader cm) (config cm) (configChan cm) (errorChan cm) (watcher cm)
    (rwMutex cm) v (retryPolicy cm) (trace cm) (loaderCalls cm)
    (watcherCalls cm) (eventLoop cm) (pendingSend cm).

Definition emit (e : Effect) (cm : CfgManager) : CfgManager :=
  mkCfgManager (loader cm) (config cm) (configChan cm) (errorChan cm) (watcher cm)
    (rwMutex cm) (once cm) (retryPolicy cm) (trace cm ++ [e]) (loaderCalls cm)
    (watcherCalls cm) (eventLoop cm) (pendingSend cm).

Definition bump_loaderCalls (cm : CfgManager) : CfgManager :=
  mkCfgManager (loader cm) (config cm) (configChan cm) (errorChan cm) (watcher cm)
    (rwMutex cm) (once cm) (retryPolicy cm) (trace cm) (S (loaderCalls cm))
    (watcherCalls cm) (eventLoop cm) (pendingSend cm).

Definition bump_watcherCalls (cm : CfgManager) : CfgManager :=
  mkCfgManager (loader cm) (config cm) (configChan cm) (errorChan cm) (watcher cm)
    (rwMutex cm) (once cm) (retryPolicy cm) (trace cm) (loaderCalls cm)
    (S (watcherCalls cm)) (eventLoop cm) (pendingSend cm).

Definition set_eventLoop (v : LoopState) (cm : CfgManager) : CfgManager :=
  mkCfgManager (loader cm) (config cm) (configChan cm) (errorChan cm) (watcher cm)
    (rwMutex cm) (once cm) (retryPolicy cm) (trace cm) (loaderCalls cm)
    (watcherCalls cm) v (pendingSend cm).

Definition set_pendingSend (v : option error) (cm : CfgManager) : CfgManager :=
  mkCfgManager (loader cm) (config cm) (configChan cm) (errorChan cm) (watcher cm)
    (rwMutex cm) (once cm) (retryPolicy cm) (trace cm) (loaderCalls cm)
    (watcherCalls cm) (eventLoop cm) v.

(** ** Outcomes and the method monad *)

Inductive Outcome (A : Type) :=
| Returned (a : A) (cm : CfgManager)
| Panicked (msg : string) (cm : CfgManager)
| Parked (cm : CfgManager)
| OutOfFuel (cm : CfgManager).
Arguments Returned {A} _ _.
Arguments Panicked {A} _ _.
Arguments Parked {A} _.
Arguments OutOfFuel {A} _.

Definition state_of {A} (o : Outcome A) : CfgManager :=
  match o with
  | Returned _ cm => cm
  | Panicked _ cm => cm
  | Parked cm => cm
  | OutOfFuel cm => cm
  end.

Definition M (A : Type) := CfgManager -> Outcome A.

Definition ret {A} (a : A) : M A := fun cm => Returned a cm.

Definition bind {A B} (m : M A) (f : A -> M B) : M B :=
  fun cm =>
    match m cm with
    | Returned a cm' => f a cm'
    | Panicked msg cm' => Panicked msg cm'
    | Parked cm' => Parked cm'
    | OutOfFuel cm' => OutOfFuel cm'
    end.

Notation "x <- c1 ;; c2" := (bind c1 (fun x => c2))
  (at level 61, c1 at next level, right associativity).
Notation "c1 ;; c2" := (bind c1 (fun _ => c2))
  (at level 61, right associativity).

Definition modify (f : CfgManager -> CfgManager) : M unit :=
  fun cm => Returned tt (f cm).

Definition get {A} (f : CfgManager -> A) : M A :=
  fun cm => Returned (f cm) cm.

Definition panic {A} (msg : string) : M A := fun cm => Panicked msg cm.

Definition park {A} : M A := fun cm => Parked cm.

Definition nil_deref : string :=
  "runtime error: invalid memory address or nil pointer dereference".

(* [defer f]: [f] runs when the body returns and when it panics; a parked
   goroutine has not left the function, so nothing runs yet. *)
Definition deferred {A} (f : CfgManager -> CfgManager) (body : M A) : M A :=
  fun cm =>
    match body cm with
    | Returned a cm' => Returned a (f cm')
    | Panicked msg cm' => Panicked msg (f cm')
    | Parked cm' => Parked cm'
    | OutOfFuel cm' => OutOfFuel cm'
    end.

(** ** Primitive operations *)

Definition logInfo (msg : string) (fields : list Field) : M unit :=
  modify (emit (EvLog InfoLevel msg fields)).

Definition logError (msg : string) (fields : list Field) : M unit :=
  modify (emit (EvLog ErrorLevel msg fields)).

Definition Sleep (d : Z) : M unit := modify (emit (EvSleep d)).

(* cm.loader.LoadConfig(ctx) *)
Definition callLoadConfig : M (ConfPtr * error) :=
  fun cm =>
    let r := LoadConfig (loader cm) (loaderCalls cm) in
    Returned r (bump_loaderCalls (emit (EvLoadConfig r) cm)).

Definition configPath : M string := get (fun cm => GetConfigPath (loader cm)).

(* cm.watcher.Add(name); a call through a nil interface panics *)
Definition watcherAdd (name : string) : M error :=
  fun cm =>
    match watcher cm with
    | None => Panicked nil_deref cm
    | Some w =>
        let r := wAdd w (watcherCalls cm) name in
        Returned r (bump_watcherCalls (emit (EvWatcherAdd name r) cm))
    end.

Definition watcherRemove (name : string) : M error :=
  fun cm =>
    match watcher cm with
    | None => Panicked nil_deref cm
    | Some w =>
        let r := wRemove w (watcherCalls cm) name in
        Returned r (bump_watcherCalls (emit (EvWatcherRemove name r) cm))
    end.

Definition watcherClose : M error :=
  fun cm =>
    match watcher cm with
    | None => Panicked nil_deref cm
    | Some w =>
        let r := wClose w (watcherCalls cm) in
        Returned r (bump_watcherCalls (emit (EvWatcherClose r) cm))
    end.

(* sync.RWMutex: Lock and RLock wait while a writer holds the lock.  A read
   lock is taken and released inside GetConfig, so only the writer's bit is
   kept. *)
Definition Lock : M unit :=
  fun cm => if rwMutex cm then Parked cm else Returned tt (set_rwMutex true cm).

Definition Unlock : CfgManager -> CfgManager := set_rwMutex false.

Definition RLock : M unit :=
  fun cm => if rwMutex cm then Parked cm else Returned tt cm.

(* cm.errorChan <- err: queued when the buffer has room, otherwise the
   sender parks with the value in hand. *)
Definition sendError (e : error) : M unit :=
  fun cm =>
    let cm1 := emit (EvSendError e) cm in
    let ch := errorChan cm1 in
    if Nat.ltb (List.length (buf ch)) (cap ch)
    then Returned tt (set_errorChan (mkChan (cap ch) (buf ch ++ [e])) cm1)
    else Parked (set_pendingSend (Some e) cm1).

(* go cm.handleFSNotify(ctx) *)
Definition spawn : M unit :=
  modify (fun cm => set_eventLoop Running (emit EvGo cm)).

(** ** Methods of CfgManager *)

Definition NewConfigManager (l : CfgLoader) (w : option WatcherInterface)
    (rp : RetryPolicy) : CfgManager :=
  mkCfgManager l None (make_chan ConfPtr 1) (make_chan error 1) w
    false false rp [] 0%nat 0%nat NotStarted None.

Definition nil_conversion : string :=
  "interface conversion: interface {} is nil, not *entity.AppConf".

(* cm.config.Load().( *entity.AppConf ): the assertion panics on the nil
   interface an empty atomic.Value yields. *)
Definition GetConfig : M ConfPtr :=
  RLock ;;
  v <- get config ;;
  match v with
  | Some p => ret p
  | None => panic nil_conversion
  end.

Definition loadAndWatchConfig : M error :=
  r <- callLoadConfig ;;
  let '(newConfig, err) := r in
  match err with
  | Some _ =>
      logError "Failed to load initial config" [zapError err] ;;
      ret err
  | None =>
      modify (set_config (Some newConfig)) ;;
      path <- configPath ;;
      err <- watcherAdd path ;;
      match err with
      | Some _ =>
          logError "Failed to watch config file"
            [zapString "path" path; zapError err] ;;
          ret err
      | None =>
          spawn ;;
          ret None
      end
  end.

(* var initErr error; cm.once.Do(func() { initErr = ... }); return initErr *)
Definition Init : M error :=
  done <- get once ;;
  if (done : bool) then ret None
  else deferred (set_once true) loadAndWatchConfig.

Inductive LoopExit :=
| EarlyReturn
| Exhausted (err : error).

(* for attempt := 1; attempt <= cm.retryPolicy.MaxAttempts; attempt++ *)
Fixpoint reloadLoop (fuel : nat) (attempt : Z) (err : error) : M LoopExit :=
  match fuel with
  | O => fun cm => OutOfFuel cm
  | S fuel' =>
      rp <- get retryPolicy ;;
      if attempt <=? MaxAttempts rp then
        r <- callLoadConfig ;;
        let '(newConfig, loadErr) := r in
        match loadErr with
        | None =>
            modify (set_config (Some newConfig)) ;;
            path <- configPath ;;
            logInfo "Config reloaded" [zapString "configPath" path] ;;
            ret EarlyReturn
        | Some _ =>
            path <- configPath ;;
            logError "Error reloading config, retrying..."
              [zapError loadErr; zapInt "attempt" attempt;
               zapString "configPath" path] ;;
            Sleep (Timeout rp) ;;
            reloadLoop fuel' (wrap64 (attempt + 1)) loadErr
        end
      else ret (Exhausted err)
  end.

Definition reloadFailed (err : error) : M unit :=
  path <- configPath ;;
  logError "Failed to reload config after retries"
    [zapError err; zapString "configPath" path].

Definition reloadConfig (fuel : nat) : M unit :=
  Lock ;;
  deferred Unlock
    (x <- reloadLoop fuel 1 None ;;
     match x with
     | EarlyReturn => ret tt
     | Exhausted err => sendError err ;; reloadFailed err
     end).

Definition processFSNotifyEvent (fuel : nat) (event : Event) : M unit :=
  if Z.land (Op event) Write =? Write then reloadConfig fuel else ret tt.

Definition cleanupWatcher : M unit :=
  path <- configPath ;;
  logInfo "Config watcher stopped" [zapString "configPath" path] ;;
  w <- get watcher ;;
  match w with
  | Some _ =>
      err <- watcherClose ;;
      match err with
      | Some _ => logError "Failed to close watcher" [zapError err]
      | None => ret tt
      end ;;
      modify (set_watcher None)
  | None => ret tt
  end.

(* What one round of the select statement delivers: cancellation, a receive
   on Events() or a receive on Errors(); [None] is a closed channel. *)
Inductive Ready :=
| CtxDone
| EventsRecv (x : option Event)
| ErrorsRecv (x : option error).

(* The channel operands cm.watcher.Events() and cm.watcher.Errors() are
   evaluated on entering each select, through the watcher field. *)
Fixpoint handleFSNotify (fuel : nat) (script : list Ready) : M unit :=
  w <- get watcher ;;
  match w with
  | None => panic nil_deref
  | Some _ =>
      match script with
      | [] => park
      | CtxDone :: _ => cleanupWatcher
      | EventsRecv None :: _ =>
          logInfo "Config watcher events channel closed" []
      | EventsRecv (Some event) :: rest =>
          processFSNotifyEvent fuel event ;;
          handleFSNotify fuel rest
      | ErrorsRecv None :: _ =>
          logInfo "Config watcher errors channel closed" []
      | ErrorsRecv (Some err) :: rest =>
          logError "Watcher error" [zapError err] ;;
          handleFSNotify fuel rest
      end
  end.

Definition not_initialized : error := Some "watcher not initialized".

Definition AddWatcher (filePath : string) : M error :=
  Lock ;;
  deferred Unlock
    (w <- get watcher ;;
     match w with
     | None => ret not_initialized
     | Some _ => watcherAdd filePath
     end).

Definition RemoveWatcher (filePath : string) : M error :=
  Lock ;;
  deferred Unlock
    (w <- get watcher ;;
     match w with
     | None => ret not_initialized
     | Some _ => watcherRemove filePath
     end).

Definition ListenForConfigErrors (cm : CfgManager) : Chan error := errorChan cm.

(** ** The manager at work

    What can happen to a manager once it is constructed: calls of its public
    methods from any goroutine, rounds of the background task's select, and
    an observer receiving from the channel ListenForConfigErrors() returns.
    The write lock makes reloadConfig, AddWatcher and RemoveWatcher mutually
    exclusive, so a run is a sequence of such steps. *)
Inductive Call :=
| CallInit
| CallGetConfig
| CallAddWatcher (filePath : string)
| CallRemoveWatcher (filePath : string)
| LoopSelect (r : Ready)
| RecvError.

(* A receive on errorChan takes the oldest queued error.  If reloadConfig is
   parked in its send, the send completes and reloadConfig runs to its end. *)
Definition recvError (cm : CfgManager) : CfgManager :=
  let ch := errorChan cm in
  match buf ch with
  | [] => cm
  | _ :: rest =>
      match pendingSend cm with
      | None => set_errorChan (mkChan (cap ch) rest) cm
      | Some e =>
          state_of
            (deferred Unlock (reloadFailed e)
               (set_pendingSend None
                  (set_errorChan (mkChan (cap ch) (rest ++ [e])) cm)))
      end
  end.

(* One round of the background task; it takes rounds only between the go
   statement and its return, and not while parked in a send. *)
Definition loopRound (fuel : nat) (r : Ready) (cm : CfgManager) : CfgManager :=
  match eventLoop cm, pendingSend cm with
  | Running, None =>
      match handleFSNotify fuel [r] cm with
      | Returned _ cm' => set_eventLoop Exited cm'
      | Panicked _ cm' => set_eventLoop Exited cm'
      | Parked cm' => cm'
      | OutOfFuel cm' => cm'
      end
  | _, _ => cm
  end.

Definition step (fuel : nat) (c : Call) (cm : CfgManager) : CfgManager :=
  match c with
  | CallInit => state_of (Init cm)
  | CallGetConfig => state_of (GetConfig cm)
  | CallAddWatcher p => state_of (AddWatcher p cm)
  | CallRemoveWatcher p => state_of (RemoveWatcher p cm)
  | LoopSelect r => loopRound fuel r cm
  | RecvError => recvError cm
  end.

Fixpoint run (fuel : nat) (calls : list Call) (cm : CfgManager) : CfgManager :=
  match calls with
  | [] => cm
  | c :: rest => run fuel rest (step fuel c cm)
  end.

(** ** Decoder selection (NewParser) *)

Inductive ZapLogger := zapLogger (name : string).

(* CfgParser has two implementations, each holding its logger. *)
Inductive CfgParser :=
| JSONParser (Logger : ZapLogger)
| YAMLParser (Logger : ZapLogger).

(* strings.HasPrefix(s, prefix) *)
Definition HasPrefix (s prefix : string) : bool := String.prefix prefix s.

Definition NewParser (fileExtension : string) (logger : option ZapLogger)
  : option CfgParser * error :=
  match logger with
  | None => (None, Some "logger is required")
  | Some lg =>
      let fileExtension :=
        if negb (HasPrefix fileExtension ".")
        then "." ++ fileExtension
        else fileExtension in
      if String.eqb fileExtension ".json" then (Some (JSONParser lg), None)
      else if String.eqb fileExtension ".yaml" || String.eqb fileExtension ".yml"
      then (Some (YAMLParser lg), None)
      else (None, Some ("unsupported file extension: " ++ fileExtension))
  end.

(** ** Concrete collaborators used in examples *)

Definition demoConf : AppConf :=
  mkAppConf (Some (mkPrometheusConf true 9090 "127.0.0.1")).

Definition otherConf : AppConf :=
  mkAppConf (Some (mkPrometheusConf false 9091 "10.0.0.1")).

(* A loader whose every call fails. *)
Definition failingLoader : CfgLoader :=
  mkCfgLoader (fun _ => (None, Some "open conf.yaml: no such file")) "conf.yaml".

(* A loader whose first call succeeds and whose later calls fail. *)
Definition flakyLoader : CfgLoader :=
  mkCfgLoader
    (fun i => match i with
              | O => (Some demoConf, None)
              | S _ => (None, Some "yaml parsing error")
              end)
    "conf.yaml".

(* A loader that succeeds on its first call, fails on the next two and
   succeeds from then on with a new configuration. *)
Definition recoveringLoader : CfgLoader :=
  mkCfgLoader
    (fun i => match i with
              | O => (Some demoConf, None)
              | 1%nat | 2%nat => (None, Some "unexpected end of file")
              | _ => (Some otherConf, None)
              end)
    "conf.yaml".

Definition okWatcher : WatcherInterface :=
  mkWatcher (fun _ _ => None) (fun _ _ => None) (fun _ => None).

Definition brokenWatcher : WatcherInterface :=
  mkWatcher (fun _ _ => Some "too many open files")
            (fun _ _ => Some "too many open files")
            (fun _ => Some "already closed").

Definition threeTries : RetryPolicy := mkRetryPolicy 3 10000000.

Definition failingManager : CfgManager :=
  NewConfigManager failingLoader (Some okWatcher) threeTries.

Definition unwatchedManager : CfgManager :=
  NewConfigManager flakyLoader (Some brokenWatcher) threeTries.

(* A manager after a successful Init: snapshot stored, path watched,
   background task started. *)
Definition watchingManager : CfgManager :=
  state_of (Init (NewConfigManager flakyLoader (Some okWatcher) threeTries)).

(** ** Predicates used in the statements *)

(* [m] keeps the invariant whatever its outcome, and what it returns
   satisfies [Q]. *)
Definition keeps (Inv : CfgManager -> Prop) {A} (m : M A) (Q : A -> Prop) : Prop :=
  forall cm, Inv cm ->
    match m cm with
    | Returned a cm' => Inv cm' /\ Q a
    | Panicked _ cm' => Inv cm'
    | Parked cm' => Inv cm'
    | OutOfFuel cm' => Inv cm'
    end.

(* [f] touches none of the loader, the stored snapshot, the configuration
   channel and the once flag. *)
Definition frames (f : CfgManager -> CfgManager) : Prop :=
  forall cm, loader (f cm) = loader cm /\ config (f cm) = config cm /\
             configChan (f cm) = configChan cm /\ once (f cm) = once cm.

(* The state cancellation leaves behind: no watcher handle, the lock free
   and no send in flight. *)
Definition tornDown (cm : CfgManager) : Prop :=
  watcher cm = None /\ rwMutex cm = false /\ pendingSend cm = None.

(* The operation bitmask includes the write bit (Write = 1 << 1). *)
Definition includesWrite (event : Event) : bool := Z.testbit (Op event) 1.

(* What one failed pass through the retry loop leaves in the trace. *)
Definition attemptEvents (path : string) (timeout : Z)
    (r : ConfPtr * error) (attempt : Z) : list Effect :=
  [EvLoadConfig r;
   EvLog ErrorLevel "Error reloading config, retrying..."
     [zapError (snd r); zapInt "attempt" attempt; zapString "configPath" path];
   EvSleep timeout].

(* The trace of [n] failed passes, the first being LoadConfig's call number
   [i] with the loop counter at [attempt]. *)
Fixpoint retryEvents (l : CfgLoader) (timeout : Z) (i : nat) (attempt : Z)
    (n : nat) : list Effect :=
  match n with
  | O => []
  | S n' =>
      attemptEvents (GetConfigPath l) timeout (LoadConfig l i) attempt
        ++ retryEvents l timeout (S i) (attempt + 1) n'
  end.

(* LoadConfig fails on its calls number [from], ..., [from + n - 1]. *)
Definition allFail (l : CfgLoader) (from n : nat) : Prop :=
  forall i, (from <= i < from + n)%nat -> snd (LoadConfig l i) <> None.

(* The manager with [evs] appended to its trace and [n] more LoadConfig
   calls counted, everything else as it was. *)
Definition advance (cm : CfgManager) (evs : list Effect) (n : nat) : CfgManager :=
  mkCfgManager (loader cm) (config cm) (configChan cm) (errorChan cm) (watcher cm)
    (rwMutex cm) (once cm) (retryPolicy cm) (trace cm ++ evs)
    (loaderCalls cm + n) (watcherCalls cm) (eventLoop cm) (pendingSend cm).

Definition isLoadConfig (e : Effect) : bool :=
  match e with EvLoadConfig _ => true | _ => false end.

Definition isSendError (e : Effect) : bool :=
  match e with EvSendError _ => true | _ => false end.

(* The effects [cm'] has recorded beyond those of [cm]. *)
Definition newEvents (cm cm' : CfgManager) : list Effect :=
  skipn (List.length (trace cm)) (trace cm').

Definition hasRoom {A} (ch : Chan A) : bool :=
  Nat.ltb (List.length (buf ch)) (cap ch).

(* The error variable after [n] failed passes. *)
Definition lastError (l : CfgLoader) (from n : nat) (err : error) : error :=
  match n with
  | O => err
  | S n' => snd (LoadConfig l (from + n'))
  end.

(* The log record reloadConfig writes after its send. *)
Definition reloadFailedLog (l : CfgLoader) (err : error) : Effect :=
  EvLog ErrorLevel "Failed to reload config after retries"
    [zapError err; zapString "configPath" (GetConfigPath l)].

(* Every LoadConfig call made on the way from [cm] to [cm'] failed. *)
Definition attemptsFail (cm cm' : CfgManager) : Prop :=
  forall i, (loaderCalls cm <= i < loaderCalls cm')%nat ->
    snd (LoadConfig (loader cm) i) <> None.

(* An operation bitmask made of any of the create, remove, rename and chmod
   bits. *)
Definition nonWriteOp (create remove rename chmod : bool) : Z :=
  Z.lor (if create then Create else 0)
    (Z.lor (if remove then Remove else 0)
       (Z.lor (if rename then Rename else 0) (if chmod then Chmod else 0))).

(* The loader never returns a nil configuration together with a nil error. *)
Definition honoursContract (l : CfgLoader) : Prop :=
  forall i p, LoadConfig l i = (p, None) -> p <> None.

(* A snapshot is stored, and it is not the nil pointer when the loader
   honours its contract. *)
Definition snapshotReady (l : CfgLoader) (cm : CfgManager) : Prop :=
  loader cm = l /\
  exists p, config cm = Some p /\ (honoursContract l -> p <> None).

(* The extension NewParser switches on. *)
Definition normalized (fileExtension : string) : string :=
  if HasPrefix fileExtension "." then fileExtension else "." ++ fileExtension.

(** ** Definitions for the further properties *)

(* A manager after a successful Init on a loader that fails twice before it
   recovers. *)
Definition recoveringManager : CfgManager :=
  state_of (Init (NewConfigManager recoveringLoader (Some okWatcher) threeTries)).

(* A watching manager whose retry policy allows no attempt. *)
Definition noRetryManager : CfgManager :=
  state_of (Init (NewConfigManager flakyLoader (Some okWatcher) (mkRetryPolicy 0 0))).

(* A watching manager after a reload that failed: its error channel is
   full. *)
Definition staleManager : CfgManager :=
  state_of (reloadConfig 10 watchingManager).

(* Scripts that end neither the loop nor start a reload: watcher errors and
   events without the write bit. *)
Definition quiet (r : Ready) : Prop :=
  match r with
  | ErrorsRecv (Some _) => True
  | EventsRecv (Some event) => includesWrite event = false
  | _ => False
  end.

(* What the loop logs for such a script. *)
Definition quietLog (script : list Ready) : list Effect :=
  flat_map
    (fun r => match r with
              | ErrorsRecv (Some err) =>
                  [EvLog ErrorLevel "Watcher error" [zapError err]]
              | _ => []
              end)
    script.

(* The snapshot stored after LoadConfig returned [p] and no error. *)
Definition loadStored (p : ConfPtr) (cm : CfgManager) : CfgManager :=
  set_config (Some p) (bump_loaderCalls (emit (EvLoadConfig (p, None)) cm)).

(* cleanupWatcher's log record for a failed Close. *)
Definition closeLog (r : error) (cm : CfgManager) : CfgManager :=
  match r with
  | Some _ => emit (EvLog ErrorLevel "Failed to close watcher" [zapError r]) cm
  | None => cm
  end.

(* The effects of failed passes of the retry loop. *)
Definition retryish (e : Effect) : Prop :=
  match e with
  | EvLoadConfig (_, Some _) => True
  | EvLog _ _ _ => True
  | EvSleep _ => True
  | _ => False
  end.

Definition isAddOrRemove (e : Effect) : Prop :=
  match e with
  | EvWatcherAdd _ _ => True
  | EvWatcherRemove _ _ => True
  | _ => False
  end.




(* The snapshot of the latest successful LoadConfig call in a trace. *)
Definition latest (acc : option ConfPtr) (e : Effect) : option ConfPtr :=
  match e with
  | EvLoadConfig (p, None) => Some p
  | _ => acc
  end.

Definition lastLoaded (tr : list Effect) : option ConfPtr :=
  fold_left latest tr None.

(* A non-nil error that the loader returns on some call. *)
Definition loadError (l : CfgLoader) (e : error) : Prop :=
  e <> None /\ exists i, snd (LoadConfig l i) = e.

(** Every step of a run, by what it does to the manager.  The states are
    those the methods compute; [step_Step] below shows that nothing else
    happens. *)
Inductive Step : CfgManager -> CfgManager -> Prop :=
| StepNone cm : Step cm cm
| StepInitLoadFailed cm p e :
    once cm = false ->
    LoadConfig (loader cm) (loaderCalls cm) = (p, Some e) ->
    Step cm
      (set_once true
         (emit (EvLog ErrorLevel "Failed to load initial config" [zapError (Some e)])
            (bump_loaderCalls (emit (EvLoadConfig (p, Some e)) cm))))
| StepInitNoWatcher cm p :
    once cm = false ->
    LoadConfig (loader cm) (loaderCalls cm) = (p, None) ->
    watcher cm = None ->
    Step cm (set_once true (loadStored p cm))
| StepInitAddFailed cm p w e :
    once cm = false ->
    LoadConfig (loader cm) (loaderCalls cm) = (p, None) ->
    watcher cm = Some w ->
    wAdd w (watcherCalls cm) (GetConfigPath (loader cm)) = Some e ->
    Step cm
      (set_once true
         (emit (EvLog ErrorLevel "Failed to watch config file"
                  [zapString "path" (GetConfigPath (loader cm)); zapError (Some e)])
            (bump_watcherCalls
               (emit (EvWatcherAdd (GetConfigPath (loader cm)) (Some e))
                  (loadStored p cm)))))
| StepInitStarted cm p w :
    once cm = false ->
    LoadConfig (loader cm) (loaderCalls cm) = (p, None) ->
    watcher cm = Some w ->
    wAdd w (watcherCalls cm) (GetConfigPath (loader cm)) = None ->
    Step cm
      (set_once true
         (set_eventLoop Running
            (emit EvGo
               (bump_watcherCalls
                  (emit (EvWatcherAdd (GetConfigPath (loader cm)) None)
                     (loadStored p cm))))))
| StepWatcherCall cm w ev :
    watcher cm = Some w ->
    rwMutex cm = false ->
    isAddOrRemove ev ->
    Step cm (bump_watcherCalls (emit ev cm))
| StepReloadOutOfFuel cm k evs :
    eventLoop cm = Running ->
    rwMutex cm = false ->
    allFail (loader cm) (loaderCalls cm) k ->
    Forall retryish evs ->
    Step cm (advance (set_rwMutex true cm) evs k)
| StepReloaded cm k evs p :
    eventLoop cm = Running ->
    rwMutex cm = false ->
    allFail (loader cm) (loaderCalls cm) k ->
    Forall retryish evs ->
    LoadConfig (loader cm) (loaderCalls cm + k) = (p, None) ->
    Step cm
      (Unlock
         (emit (EvLog InfoLevel "Config reloaded"
                  [zapString "configPath" (GetConfigPath (loader cm))])
            (loadStored p (advance (set_rwMutex true cm) evs k))))
| StepReloadSent cm k evs :
    eventLoop cm = Running ->
    rwMutex cm = false ->
    allFail (loader cm) (loaderCalls cm) k ->
    Forall retryish evs ->
    (k = 0%nat -> MaxAttempts (retryPolicy cm) < 1) ->
    hasRoom (errorChan cm) = true ->
    Step cm
      (Unlock
         (emit (reloadFailedLog (loader cm)
                  (lastError (loader cm) (loaderCalls cm) k None))
            (set_errorChan
               (mkChan (cap (errorChan cm))
                  (buf (errorChan cm)
                     ++ [lastError (loader cm) (loaderCalls cm) k None]))
               (emit (EvSendError (lastError (loader cm) (loaderCalls cm) k None))
                  (advance (set_rwMutex true cm) evs k)))))
| StepReloadBlocked cm k evs :
    eventLoop cm = Running ->
    rwMutex cm = false ->
    allFail (loader cm) (loaderCalls cm) k ->
    Forall retryish evs ->
    (k = 0%nat -> MaxAttempts (retryPolicy cm) < 1) ->
    hasRoom (errorChan cm) = false ->
    Step cm
      (set_pendingSend (Some (lastError (loader cm) (loaderCalls cm) k None))
         (emit (EvSendError (lastError (loader cm) (loaderCalls cm) k None))
            (advance (set_rwMutex true cm) evs k)))
| StepWatcherError cm err :
    eventLoop cm = Running ->
    Step cm (emit (EvLog ErrorLevel "Watcher error" [zapError err]) cm)
| StepChannelClosed cm msg :
    eventLoop cm = Running ->
    Step cm (set_eventLoop Exited (emit (EvLog InfoLevel msg []) cm))
| StepCancelled cm w :
    eventLoop cm = Running ->
    watcher cm = Some w ->
    Step cm
      (set_eventLoop Exited
         (set_watcher None
            (closeLog (wClose w (watcherCalls cm))
               (bump_watcherCalls
                  (emit (EvWatcherClose (wClose w (watcherCalls cm)))
                     (emit (EvLog InfoLevel "Config watcher stopped"
                              [zapString "configPath" (GetConfigPath (loader cm))])
                        cm))))))
| StepLoopCrashed cm :
    eventLoop cm = Running ->
    watcher cm = None ->
    Step cm (set_eventLoop Exited cm)
| StepRecv cm x rest :
    buf (errorChan cm) = x :: rest ->
    pendingSend cm = None ->
    Step cm (set_errorChan (mkChan (cap (errorChan cm)) rest) cm)
| StepRecvResume cm x rest e :
    buf (errorChan cm) = x :: rest ->
    pendingSend cm = Some e ->
    Step cm
      (Unlock
         (emit (reloadFailedLog (loader cm) e)
            (set_pendingSend None
               (set_errorChan (mkChan (cap (errorChan cm)) (rest ++ [e])) cm)))).

(** * Properties *)

(** ** Invariants of a run

    A property of the manager that depends only on the loader, the stored
    snapshot, the configuration channel and the once flag, and that survives
    setting the once flag and storing any snapshot a successful LoadConfig
    can return, holds along every run. *)
Section Invariant.

Variable Inv : CfgManager -> Prop.
Variable Good : ConfPtr -> Prop.

Hypothesis Inv_frame : forall cm cm',
  loader cm' = loader cm -> config cm' = config cm ->
  configChan cm' = configChan cm -> once cm' = once cm -> Inv cm -> Inv cm'.
Hypothesis Inv_once : forall cm, Inv cm -> Inv (set_once true cm).
Hypothesis Inv_store : forall p cm,
  Inv cm -> Good p -> Inv (set_config (Some p) cm).
Hypothesis Inv_load : forall cm i p,
  Inv cm -> LoadConfig (loader cm) i = (p, None) -> Good p.

Lemma frames_Inv f cm : frames f -> Inv cm -> Inv (f cm).
Proof.
  intros Hf HI. destruct (Hf cm) as (H1 & H2 & H3 & H4).
  now apply (Inv_frame cm).
Qed.

Lemma keeps_state {A} (m : M A) Q cm :
  keeps Inv m Q -> Inv cm -> Inv (state_of (m cm)).
Proof.
  intros Hm HI. specialize (Hm cm HI).
  destruct (m cm); simpl; tauto.
Qed.

Lemma keeps_weaken {A} (m : M A) (Q R : A -> Prop) :
  keeps Inv m Q -> (forall a, Q a -> R a) -> keeps Inv m R.
Proof.
  intros Hm HQR cm HI. specialize (Hm cm HI).
  destruct (m cm); intuition.
Qed.

Lemma keeps_ret {A} (a : A) (Q : A -> Prop) : Q a -> keeps Inv (ret a) Q.
Proof. intros HQ cm HI. simpl. auto. Qed.

Lemma keeps_bind {A B} (m : M A) (f : A -> M B) Q R :
  keeps Inv m Q -> (forall a, Q a -> keeps Inv (f a) R) -> keeps Inv (bind m f) R.
Proof.
  intros Hm Hf cm HI. unfold bind. specialize (Hm cm HI).
  destruct (m cm) as [a cm'| | |]; auto.
  destruct Hm as [HI' HQ]. now apply Hf.
Qed.

Lemma keeps_modify f : frames f -> keeps Inv (modify f) (fun _ => True).
Proof. intros Hf cm HI. simpl. split; auto. now apply frames_Inv. Qed.

Lemma keeps_get {A} (f : CfgManager -> A) : keeps Inv (get f) (fun _ => True).
Proof. intros cm HI. simpl. auto. Qed.

Lemma keeps_panic {A} msg (Q : A -> Prop) : keeps Inv (panic msg) Q.
Proof. intros cm HI. simpl. auto. Qed.

Lemma keeps_park {A} (Q : A -> Prop) : keeps Inv park Q.
Proof. intros cm HI. simpl. auto. Qed.

Lemma keeps_deferred {A} f (m : M A) Q :
  (forall cm, Inv cm -> Inv (f cm)) -> keeps Inv m Q -> keeps Inv (deferred f m) Q.
Proof.
  intros Hf Hm cm HI. unfold deferred. specialize (Hm cm HI).
  destruct (m cm); auto.
  destruct Hm. split; auto.
Qed.

Lemma frames_emit e : frames (emit e).
Proof. intro cm. simpl. auto. Qed.

Lemma frames_set_rwMutex b : frames (set_rwMutex b).
Proof. intro cm. simpl. auto. Qed.

Lemma frames_set_watcher w : frames (set_watcher w).
Proof. intro cm. simpl. auto. Qed.

Lemma frames_set_eventLoop l : frames (set_eventLoop l).
Proof. intro cm. simpl. auto. Qed.

Lemma frames_spawn : frames (fun cm => set_eventLoop Running (emit EvGo cm)).
Proof. intro cm. simpl. auto. Qed.

Lemma keeps_log l msg fields :
  keeps Inv (modify (emit (EvLog l msg fields))) (fun _ => True).
Proof. apply keeps_modify, frames_emit. Qed.

Lemma keeps_callLoadConfig :
  keeps Inv callLoadConfig (fun r => snd r = None -> Good (fst r)).
Proof.
  intros cm HI. unfold callLoadConfig.
  destruct (LoadConfig (loader cm) (loaderCalls cm)) as [p e] eqn:E.
  split.
  - apply (Inv_frame cm); auto.
  - simpl. intros ->. now apply (Inv_load cm (loaderCalls cm)).
Qed.

Lemma keeps_watcherAdd name : keeps Inv (watcherAdd name) (fun _ => True).
Proof.
  intros cm HI. unfold watcherAdd. destruct (watcher cm); auto.
  split; auto. apply (Inv_frame cm); auto.
Qed.

Lemma keeps_watcherRemove name : keeps Inv (watcherRemove name) (fun _ => True).
Proof.
  intros cm HI. unfold watcherRemove. destruct (watcher cm); auto.
  split; auto. apply (Inv_frame cm); auto.
Qed.

Lemma keeps_watcherClose : keeps Inv watcherClose (fun _ => True).
Proof.
  intros cm HI. unfold watcherClose. destruct (watcher cm); auto.
  split; auto. apply (Inv_frame cm); auto.
Qed.

Lemma keeps_Lock : keeps Inv Lock (fun _ => True).
Proof.
  intros cm HI. unfold Lock. destruct (rwMutex cm); auto.
  split; auto. apply (Inv_frame cm); auto.
Qed.

Lemma keeps_RLock : keeps Inv RLock (fun _ => True).
Proof. intros cm HI. unfold RLock. destruct (rwMutex cm); auto. Qed.

Lemma keeps_sendError e : keeps Inv (sendError e) (fun _ => True).
Proof.
  intros cm HI. unfold sendError.
  destruct (Nat.ltb _ _); [split; auto|]; apply (Inv_frame cm); auto.
Qed.

Lemma keeps_store p : Good p -> keeps Inv (modify (set_config (Some p))) (fun _ => True).
Proof. intros HG cm HI. simpl. auto. Qed.

Lemma keeps_GetConfig : keeps Inv GetConfig (fun _ => True).
Proof.
  unfold GetConfig.
  eapply keeps_bind; [apply keeps_RLock|]; intros _ _.
  eapply keeps_bind; [apply keeps_get|]; intros [p|] _.
  - now apply keeps_ret.
  - apply keeps_panic.
Qed.

Lemma keeps_loadAndWatchConfig : keeps Inv loadAndWatchConfig (fun _ => True).
Proof.
  unfold loadAndWatchConfig.
  eapply keeps_bind; [apply keeps_callLoadConfig|].
  intros [newConfig [e|]] HG; simpl in HG.
  - eapply keeps_bind; [apply keeps_log|]; intros _ _. now apply keeps_ret.
  - eapply keeps_bind; [apply keeps_store; auto|]; intros _ _.
    eapply keeps_bind; [apply keeps_get|]; intros path _.
    eapply keeps_bind; [apply keeps_watcherAdd|]; intros [e|] _.
    + eapply keeps_bind; [apply keeps_log|]; intros _ _. now apply keeps_ret.
    + eapply keeps_bind; [apply keeps_modify, frames_spawn|]; intros _ _.
      now apply keeps_ret.
Qed.

Lemma keeps_Init : keeps Inv Init (fun _ => True).
Proof.
  unfold Init.
  eapply keeps_bind; [apply keeps_get|]; intros [|] _.
  - now apply keeps_ret.
  - apply keeps_deferred; [apply Inv_once|apply keeps_loadAndWatchConfig].
Qed.

Lemma keeps_reloadLoop fuel :
  forall attempt err, keeps Inv (reloadLoop fuel attempt err) (fun _ => True).
Proof.
  induction fuel as [|fuel IH]; intros attempt err; simpl.
  - intros cm HI. auto.
  - eapply keeps_bind; [apply keeps_get|]; intros rp _.
    destruct (attempt <=? MaxAttempts rp); [|now apply keeps_ret].
    eapply keeps_bind; [apply keeps_callLoadConfig|].
    intros [newConfig [e|]] HG; simpl in HG.
    + eapply keeps_bind; [apply keeps_get|]; intros path _.
      eapply keeps_bind; [apply keeps_log|]; intros _ _.
      eapply keeps_bind; [apply keeps_modify, frames_emit|]; intros _ _.
      apply IH.
    + eapply keeps_bind; [apply keeps_store; auto|]; intros _ _.
      eapply keeps_bind; [apply keeps_get|]; intros path _.
      eapply keeps_bind; [apply keeps_log|]; intros _ _.
      now apply keeps_ret.
Qed.

Lemma keeps_reloadFailed err : keeps Inv (reloadFailed err) (fun _ => True).
Proof.
  unfold reloadFailed.
  eapply keeps_bind; [apply keeps_get|]; intros path _. apply keeps_log.
Qed.

Lemma keeps_reloadConfig fuel : keeps Inv (reloadConfig fuel) (fun _ => True).
Proof.
  unfold reloadConfig.
  eapply keeps_bind; [apply keeps_Lock|]; intros _ _.
  apply keeps_deferred; [intro; apply frames_Inv, frames_set_rwMutex|].
  eapply keeps_bind; [apply keeps_reloadLoop|]; intros [|err] _.
  - now apply keeps_ret.
  - eapply keeps_bind; [apply keeps_sendError|]; intros _ _.
    apply keeps_reloadFailed.
Qed.

Lemma keeps_processFSNotifyEvent fuel event :
  keeps Inv (processFSNotifyEvent fuel event) (fun _ => True).
Proof.
  unfold processFSNotifyEvent.
  destruct (_ =? _); [apply keeps_reloadConfig|now apply keeps_ret].
Qed.

Lemma keeps_cleanupWatcher : keeps Inv cleanupWatcher (fun _ => True).
Proof.
  unfold cleanupWatcher.
  eapply keeps_bind; [apply keeps_get|]; intros path _.
  eapply keeps_bind; [apply keeps_log|]; intros _ _.
  eapply keeps_bind; [apply keeps_get|]; intros [w|] _; [|now apply keeps_ret].
  eapply keeps_bind; [apply keeps_watcherClose|]; intros err _.
  eapply keeps_bind with (Q := fun _ => True).
  - destruct err; [apply keeps_log|now apply keeps_ret].
  - intros _ _. apply keeps_modify, frames_set_watcher.
Qed.

Lemma keeps_handleFSNotify fuel script :
  keeps Inv (handleFSNotify fuel script) (fun _ => True).
Proof.
  induction script as [|r rest IH]; simpl.
  - eapply keeps_bind; [apply keeps_get|]; intros [w|] _;
      [apply keeps_park|apply keeps_panic].
  - eapply keeps_bind; [apply keeps_get|]; intros [w|] _; [|apply keeps_panic].
    destruct r as [|[event|]|[err|]].
    + apply keeps_cleanupWatcher.
    + eapply keeps_bind; [apply keeps_processFSNotifyEvent|]; intros _ _.
      apply IH.
    + apply keeps_log.
    + eapply keeps_bind; [apply keeps_log|]; intros _ _. apply IH.
    + apply keeps_log.
Qed.

Lemma keeps_AddWatcher p : keeps Inv (AddWatcher p) (fun _ => True).
Proof.
  unfold AddWatcher.
  eapply keeps_bind; [apply keeps_Lock|]; intros _ _.
  apply keeps_deferred; [intro; apply frames_Inv, frames_set_rwMutex|].
  eapply keeps_bind; [apply keeps_get|]; intros [w|] _.
  - apply keeps_watcherAdd.
  - now apply keeps_ret.
Qed.

Lemma keeps_RemoveWatcher p : keeps Inv (RemoveWatcher p) (fun _ => True).
Proof.
  unfold RemoveWatcher.
  eapply keeps_bind; [apply keeps_Lock|]; intros _ _.
  apply keeps_deferred; [intro; apply frames_Inv, frames_set_rwMutex|].
  eapply keeps_bind; [apply keeps_get|]; intros [w|] _.
  - apply keeps_watcherRemove.
  - now apply keeps_ret.
Qed.

Lemma recvError_Inv cm : Inv cm -> Inv (recvError cm).
Proof.
  intros HI. unfold recvError.
  destruct (buf (errorChan cm)) as [|x rest]; auto.
  destruct (pendingSend cm) as [e|].
  - apply (keeps_state _ (fun _ => True)).
    + apply keeps_deferred; [intro; apply frames_Inv, frames_set_rwMutex|apply keeps_reloadFailed].
    + apply (Inv_frame cm); auto.
  - apply (Inv_frame cm); auto.
Qed.

Lemma loopRound_Inv fuel r cm : Inv cm -> Inv (loopRound fuel r cm).
Proof.
  intros HI. unfold loopRound.
  destruct (eventLoop cm); auto. destruct (pendingSend cm); auto.
  pose proof (keeps_handleFSNotify fuel [r] cm HI) as H.
  destruct (handleFSNotify fuel [r] cm); auto.
  - destruct H. now apply frames_Inv; [apply frames_set_eventLoop|].
  - now apply frames_Inv; [apply frames_set_eventLoop|].
Qed.

Lemma step_Inv fuel c cm : Inv cm -> Inv (step fuel c cm).
Proof.
  intros HI. destruct c; simpl.
  - now apply (keeps_state _ _ _ keeps_Init).
  - now apply (keeps_state _ _ _ keeps_GetConfig).
  - now apply (keeps_state _ _ _ (keeps_AddWatcher filePath)).
  - now apply (keeps_state _ _ _ (keeps_RemoveWatcher filePath)).
  - now apply loopRound_Inv.
  - now apply recvError_Inv.
Qed.

Lemma run_Inv fuel calls : forall cm, Inv cm -> Inv (run fuel calls cm).
Proof.
  induction calls as [|c rest IH]; intros cm HI; simpl; auto.
  apply IH. now apply step_Inv.
Qed.

End Invariant.

(** ** Init *)

Ltac unfold_m :=
  unfold bind, ret, get, modify, panic, park, deferred, configPath,
    logInfo, logError, Sleep, spawn in *.

Lemma once_stays_set fuel calls cm :
  once cm = true -> once (run fuel calls cm) = true.
Proof.
  apply (run_Inv (fun cm => once cm = true) (fun _ => True)); auto.
  intros c c' _ _ _ Ho H. now rewrite Ho.
Qed.

Lemma Init_when_done cm : once cm = true -> Init cm = Returned None cm.
Proof. intros H. unfold Init. unfold_m. now rewrite H. Qed.

Lemma Init_first_call cm :
  once cm = false -> Init cm = deferred (set_once true) loadAndWatchConfig cm.
Proof. intros H. unfold Init. unfold_m. now rewrite H. Qed.

Lemma loadAndWatchConfig_outcome cm :
  (exists e cm', loadAndWatchConfig cm = Returned e cm') \/
  (exists msg cm', loadAndWatchConfig cm = Panicked msg cm').
Proof.
  unfold loadAndWatchConfig, callLoadConfig, watcherAdd. unfold_m.
  destruct (LoadConfig (loader cm) (loaderCalls cm)) as [p [e|]]; simpl.
  - left. eauto.
  - destruct (watcher cm) as [w|]; simpl.
    + destruct (wAdd w _ _); left; eauto.
    + right. eauto.
Qed.

Lemma Init_sets_once cm : once (state_of (Init cm)) = true.
Proof.
  destruct (once cm) eqn:Ho.
  - now rewrite Init_when_done.
  - rewrite Init_first_call by assumption. unfold deferred.
    destruct (loadAndWatchConfig_outcome cm) as [(e & cm' & H)|(msg & cm' & H)];
      now rewrite H.
Qed.

(** C1 (as amended).  Only the first call of Init runs loadAndWatchConfig;
    it sets the once flag whatever the outcome.  Every later call, after any
    further activity of the manager, changes nothing and returns nil: the
    outcome of the first attempt is not kept. *)
Theorem Init_only_first_call_works :
  forall cm, once cm = false ->
    Init cm = deferred (set_once true) loadAndWatchConfig cm /\
    forall fuel calls,
      let later := run fuel calls (state_of (Init cm)) in
      Init later = Returned None later.
Proof.
  intros cm Ho. split.
  - now apply Init_first_call.
  - intros fuel calls later. apply Init_when_done.
    apply once_stays_set, Init_sets_once.
Qed.

Lemma Init_only_first_call_works_witness :
  once failingManager = false /\
  (Init failingManager
     = deferred (set_once true) loadAndWatchConfig failingManager /\
   forall fuel calls,
     let later := run fuel calls (state_of (Init failingManager)) in
     Init later = Returned None later).
Proof.
  split; [reflexivity|].
  apply (Init_only_first_call_works failingManager). reflexivity.
Defined.

(** C1 (as stated) fails: the first Init of a manager whose loader fails
    returns the load error, and the second Init returns nil. *)
Lemma Init_later_call_returns_nil_after_failure :
  Init failingManager
    = Returned (Some "open conf.yaml: no such file")
        (state_of (Init failingManager)) /\
  Init (state_of (Init failingManager))
    = Returned None (state_of (Init failingManager)).
Proof. split; reflexivity. Qed.

(** C4.  When the initial LoadConfig of the first Init fails, Init returns
    that error; the only effects are the LoadConfig call and one error log
    record, so Watcher.Add is not called and no background task is started,
    and no snapshot is stored. *)
Theorem Init_initial_load_failure :
  forall cm p e,
    once cm = false ->
    LoadConfig (loader cm) (loaderCalls cm) = (p, Some e) ->
    exists cm',
      Init cm = Returned (Some e) cm' /\
      trace cm' = (trace cm ++
        [EvLoadConfig (p, Some e);
         EvLog ErrorLevel "Failed to load initial config" [zapError (Some e)]])%list /\
      watcherCalls cm' = watcherCalls cm /\
      watcher cm' = watcher cm /\
      eventLoop cm' = eventLoop cm /\
      config cm' = config cm.
Proof.
  intros cm p e Ho HL.
  rewrite Init_first_call by assumption.
  unfold loadAndWatchConfig, callLoadConfig. unfold_m.
  rewrite HL. simpl. eexists. split; [reflexivity|]. simpl.
  rewrite <- app_assoc. auto.
Qed.

Lemma Init_initial_load_failure_witness :
  once failingManager = false /\
  LoadConfig (loader failingManager) (loaderCalls failingManager)
    = (None, Some "open conf.yaml: no such file") /\
  exists cm',
    Init failingManager = Returned (Some "open conf.yaml: no such file") cm' /\
    trace cm' = (trace failingManager ++
      [EvLoadConfig (None, Some "open conf.yaml: no such file");
       EvLog ErrorLevel "Failed to load initial config"
         [zapError (Some "open conf.yaml: no such file")]])%list /\
    watcherCalls cm' = watcherCalls failingManager /\
    watcher cm' = watcher failingManager /\
    eventLoop cm' = eventLoop failingManager /\
    config cm' = config failingManager.
Proof.
  split; [reflexivity|]. split; [reflexivity|].
  apply (Init_initial_load_failure failingManager); reflexivity.
Defined.

(** C5.  When the initial load succeeds and Watcher.Add fails for the
    loader's path, Init returns the registration error and starts no
    background task, and the loaded snapshot is already stored: GetConfig
    returns it. *)
Theorem Init_watch_registration_failure :
  forall cm p w e,
    once cm = false ->
    rwMutex cm = false ->
    LoadConfig (loader cm) (loaderCalls cm) = (p, None) ->
    watcher cm = Some w ->
    wAdd w (watcherCalls cm) (GetConfigPath (loader cm)) = Some e ->
    exists cm',
      Init cm = Returned (Some e) cm' /\
      trace cm' = (trace cm ++
        [EvLoadConfig (p, None);
         EvWatcherAdd (GetConfigPath (loader cm)) (Some e);
         EvLog ErrorLevel "Failed to watch config file"
           [zapString "path" (GetConfigPath (loader cm)); zapError (Some e)]])%list /\
      eventLoop cm' = eventLoop cm /\
      config cm' = Some p /\
      GetConfig cm' = Returned p cm'.
Proof.
  intros cm p w e Ho Hm HL Hw HA.
  rewrite Init_first_call by assumption.
  unfold loadAndWatchConfig, callLoadConfig, watcherAdd. unfold_m.
  rewrite HL. simpl. rewrite Hw. simpl. rewrite HA. simpl.
  eexists. split; [reflexivity|]. simpl.
  repeat rewrite <- app_assoc. repeat split; auto.
  unfold GetConfig, RLock. unfold_m. simpl. now rewrite Hm.
Qed.

Lemma Init_watch_registration_failure_witness :
  exists cm',
    Init unwatchedManager = Returned (Some "too many open files") cm' /\
    trace cm' = (trace unwatchedManager ++
      [EvLoadConfig (Some demoConf, None);
       EvWatcherAdd "conf.yaml" (Some "too many open files");
       EvLog ErrorLevel "Failed to watch config file"
         [zapString "path" "conf.yaml";
          zapError (Some "too many open files")]])%list /\
    eventLoop cm' = eventLoop unwatchedManager /\
    config cm' = Some (Some demoConf) /\
    GetConfig cm' = Returned (Some demoConf) cm'.
Proof.
  apply (Init_watch_registration_failure unwatchedManager (Some demoConf)
           brokenWatcher "too many open files"); reflexivity.
Defined.

(** ** Watch management after teardown *)

Lemma cleanupWatcher_clears cm :
  exists cm', cleanupWatcher cm = Returned tt cm' /\
    watcher cm' = None /\ rwMutex cm' = rwMutex cm /\
    pendingSend cm' = pendingSend cm.
Proof.
  destruct cm as [l cfg cch ech w m o rp tr lc wc el ps].
  unfold cleanupWatcher, watcherClose. unfold_m. simpl.
  destruct w as [w|]; simpl.
  - destruct (wClose w wc); simpl; eexists; (split; [reflexivity|]);
      simpl; auto.
  - eexists; split; [reflexivity|]; simpl; auto.
Qed.

Lemma cancellation_tears_down fuel cm w :
  watcher cm = Some w -> eventLoop cm = Running ->
  rwMutex cm = false -> pendingSend cm = None ->
  tornDown (loopRound fuel CtxDone cm).
Proof.
  intros Hw Hl Hm Hp. unfold loopRound. rewrite Hl, Hp.
  simpl. unfold bind at 1, get at 1. rewrite Hw.
  destruct (cleanupWatcher_clears cm) as (cm' & -> & H1 & H2 & H3).
  unfold tornDown. simpl. rewrite H2, H3. auto.
Qed.

Lemma step_tornDown fuel c cm : tornDown cm -> tornDown (step fuel c cm).
Proof.
  destruct cm as [l cfg cch ech w m o rp tr lc wc el ps].
  unfold tornDown. simpl. intros (-> & -> & ->).
  destruct c as [| | p | p | r |]; simpl.
  - unfold Init, loadAndWatchConfig, callLoadConfig, watcherAdd. unfold_m.
    simpl. destruct o; simpl; auto.
    destruct (LoadConfig l lc) as [p [e|]]; simpl; auto.
  - unfold GetConfig, RLock. unfold_m. simpl. destruct cfg; simpl; auto.
  - unfold AddWatcher, Lock. unfold_m. simpl. auto.
  - unfold RemoveWatcher, Lock. unfold_m. simpl. auto.
  - unfold loopRound. simpl. destruct el; simpl; auto.
  - unfold recvError. simpl. destruct (buf ech); simpl; auto.
Qed.

Lemma run_tornDown fuel calls :
  forall cm, tornDown cm -> tornDown (run fuel calls cm).
Proof.
  induction calls as [|c rest IH]; intros cm H; simpl; auto.
  apply IH. now apply step_tornDown.
Qed.

Lemma AddWatcher_tornDown filePath cm :
  tornDown cm -> AddWatcher filePath cm = Returned not_initialized cm.
Proof.
  destruct cm. unfold tornDown. simpl. intros (-> & -> & ->).
  reflexivity.
Qed.

Lemma RemoveWatcher_tornDown filePath cm :
  tornDown cm -> RemoveWatcher filePath cm = Returned not_initialized cm.
Proof.
  destruct cm. unfold tornDown. simpl. intros (-> & -> & ->).
  reflexivity.
Qed.

(** C7.  Once the background task has taken the cancellation branch (which
    runs cleanupWatcher and clears the watcher handle), then after any
    further activity of the manager every AddWatcher and RemoveWatcher
    returns the error "watcher not initialized": it does not panic and it
    leaves the manager, its trace included, as it was, so the watcher is not
    invoked. *)
Theorem watch_management_after_teardown :
  forall fuel cm w calls filePath,
    watcher cm = Some w ->
    eventLoop cm = Running ->
    rwMutex cm = false ->
    pendingSend cm = None ->
    let down := run fuel calls (loopRound fuel CtxDone cm) in
    watcher down = None /\
    AddWatcher filePath down = Returned (Some "watcher not initialized") down /\
    RemoveWatcher filePath down = Returned (Some "watcher not initialized") down.
Proof.
  intros fuel cm w calls filePath Hw Hl Hm Hp down.
  assert (Hd : tornDown down)
    by (apply run_tornDown, (cancellation_tears_down fuel cm w); assumption).
  split; [apply Hd|]. split.
  - now apply AddWatcher_tornDown.
  - now apply RemoveWatcher_tornDown.
Qed.

Lemma watch_management_after_teardown_witness :
  let down :=
    run 5 [CallGetConfig; CallAddWatcher "other.yaml"; CallInit]
      (loopRound 5 CtxDone watchingManager) in
  watcher down = None /\
  AddWatcher "conf.yaml" down = Returned (Some "watcher not initialized") down /\
  RemoveWatcher "conf.yaml" down = Returned (Some "watcher not initialized") down.
Proof.
  apply (watch_management_after_teardown 5%nat watchingManager okWatcher
           [CallGetConfig; CallAddWatcher "other.yaml"; CallInit] "conf.yaml");
    reflexivity.
Defined.

(** ** Reload *)

Lemma wrap64_small z : min_int64 <= z <= max_int64 -> wrap64 z = z.
Proof.
  unfold wrap64, min_int64, max_int64. intros H.
  rewrite Z.mod_small; lia.
Qed.

Lemma advance_zero cm : advance cm [] 0 = cm.
Proof.
  destruct cm. unfold advance. simpl. now rewrite app_nil_r, Nat.add_0_r.
Qed.

Lemma advance_advance cm evs1 n1 evs2 n2 :
  advance (advance cm evs1 n1) evs2 n2 = advance cm (evs1 ++ evs2) (n1 + n2).
Proof.
  unfold advance. simpl. now rewrite app_assoc, Nat.add_assoc.
Qed.

Lemma failed_pass_advance cm path timeout r attempt :
  emit (EvSleep timeout)
    (emit (EvLog ErrorLevel "Error reloading config, retrying..."
             [zapError (snd r); zapInt "attempt" attempt;
              zapString "configPath" path])
       (bump_loaderCalls (emit (EvLoadConfig r) cm)))
  = advance cm (attemptEvents path timeout r attempt) 1.
Proof.
  unfold advance, emit, bump_loaderCalls, attemptEvents. simpl.
  repeat rewrite <- app_assoc. simpl. now rewrite Nat.add_1_r.
Qed.

Lemma reloadLoop_all_fail n :
  forall fuel attempt err cm,
    (n < fuel)%nat ->
    min_int64 <= attempt ->
    attempt + Z.of_nat n - 1 = MaxAttempts (retryPolicy cm) ->
    MaxAttempts (retryPolicy cm) < max_int64 ->
    allFail (loader cm) (loaderCalls cm) n ->
    reloadLoop fuel attempt err cm
    = Returned (Exhausted (lastError (loader cm) (loaderCalls cm) n err))
        (advance cm
           (retryEvents (loader cm) (Timeout (retryPolicy cm))
              (loaderCalls cm) attempt n) n).
Proof.
  induction n as [|n IH]; intros fuel attempt err cm Hf Ha HM Hmax Hfail.
  - destruct fuel as [|fuel]; [lia|]. simpl. unfold_m.
    replace (attempt <=? MaxAttempts (retryPolicy cm)) with false
      by (symmetry; apply Z.leb_gt; lia).
    now rewrite advance_zero.
  - destruct fuel as [|fuel]; [lia|]. simpl. unfold_m.
    replace (attempt <=? MaxAttempts (retryPolicy cm)) with true
      by (symmetry; apply Z.leb_le; lia).
    unfold callLoadConfig.
    assert (Hi : snd (LoadConfig (loader cm) (loaderCalls cm)) <> None)
      by (apply Hfail; lia).
    destruct (LoadConfig (loader cm) (loaderCalls cm)) as [p [e|]] eqn:HL;
      [clear Hi|now elim Hi].
    simpl.
    change (GetConfigPath (loader (bump_loaderCalls (emit (EvLoadConfig (p, Some e)) cm))))
      with (GetConfigPath (loader cm)).
    change (Some e) with (snd (p, Some e)) at 2.
    rewrite failed_pass_advance.
    rewrite wrap64_small by lia.
    rewrite IH; simpl; try lia.
    + rewrite advance_advance.
      replace (loaderCalls cm + 1)%nat with (S (loaderCalls cm)) by lia.
      f_equal.
      destruct n as [|n]; simpl.
      * now rewrite Nat.add_0_r, HL.
      * do 3 f_equal. lia.
    + intros i Hi. apply Hfail. lia.
Qed.

Lemma retryEvents_loads l timeout n :
  forall i attempt,
    List.length (filter isLoadConfig (retryEvents l timeout i attempt n)) = n.
Proof.
  induction n as [|n IH]; intros i attempt; simpl; auto.
Qed.

Lemma retryEvents_no_send l timeout n :
  forall i attempt, filter isSendError (retryEvents l timeout i attempt n) = [].
Proof.
  induction n as [|n IH]; intros i attempt; simpl; auto.
Qed.

Lemma newEvents_app cm cm' evs :
  trace cm' = (trace cm ++ evs)%list -> newEvents cm cm' = evs.
Proof.
  intros H. unfold newEvents. rewrite H, skipn_app, skipn_all, Nat.sub_diag.
  reflexivity.
Qed.

(* reloadConfig when every attempt fails, in closed form. *)
Lemma reloadConfig_all_fail fuel cm n :
  MaxAttempts (retryPolicy cm) = Z.of_nat n ->
  Z.of_nat n < max_int64 ->
  rwMutex cm = false ->
  allFail (loader cm) (loaderCalls cm) n ->
  (n < fuel)%nat ->
  let err := lastError (loader cm) (loaderCalls cm) n None in
  let tried :=
    emit (EvSendError err)
      (advance (set_rwMutex true cm)
         (retryEvents (loader cm) (Timeout (retryPolicy cm))
            (loaderCalls cm) 1 n) n) in
  reloadConfig fuel cm =
  if hasRoom (errorChan cm)
  then Returned tt
         (Unlock
            (emit (reloadFailedLog (loader cm) err)
               (set_errorChan
                  (mkChan (cap (errorChan cm)) (buf (errorChan cm) ++ [err]))
                  tried)))
  else Parked (set_pendingSend (Some err) tried).
Proof.
  intros HM Hmax Hm Hfail Hf err tried.
  unfold reloadConfig, Lock. unfold bind at 1. rewrite Hm.
  unfold deferred. unfold bind at 1.
  rewrite (reloadLoop_all_fail n);
    [ | assumption | unfold min_int64; lia
      | change (retryPolicy (set_rwMutex true cm)) with (retryPolicy cm); lia
      | change (retryPolicy (set_rwMutex true cm)) with (retryPolicy cm); lia
      | exact Hfail ].
  unfold sendError, reloadFailed, hasRoom. unfold_m. simpl.
  fold err. destruct (Nat.ltb _ _); reflexivity.
Qed.

(** C2.  With MaxAttempts = n >= 1 (below the largest int, so that the loop
    counter does not wrap) and the lock free, a reload whose LoadConfig
    calls all fail makes exactly n LoadConfig calls, each followed by an
    error log record and a sleep of Timeout, and then sends one error, that
    of the n-th call, on the error channel: it is queued if the channel has
    room, and otherwise reloadConfig waits in the send with that error. *)
Theorem reloadConfig_retry_bound :
  forall fuel cm n,
    MaxAttempts (retryPolicy cm) = Z.of_nat n ->
    (1 <= n)%nat ->
    Z.of_nat n < max_int64 ->
    rwMutex cm = false ->
    allFail (loader cm) (loaderCalls cm) n ->
    (n < fuel)%nat ->
    let cm' := state_of (reloadConfig fuel cm) in
    let lastErr := snd (LoadConfig (loader cm) (loaderCalls cm + n - 1)) in
    newEvents cm cm' =
      (retryEvents (loader cm) (Timeout (retryPolicy cm)) (loaderCalls cm) 1 n
       ++ EvSendError lastErr
          :: (if hasRoom (errorChan cm)
              then [reloadFailedLog (loader cm) lastErr]
              else []))%list /\
    List.length (filter isLoadConfig (newEvents cm cm')) = n /\
    loaderCalls cm' = (loaderCalls cm + n)%nat /\
    List.length (filter isSendError (newEvents cm cm')) = 1%nat /\
    (if hasRoom (errorChan cm)
     then reloadConfig fuel cm = Returned tt cm' /\
          buf (errorChan cm') = (buf (errorChan cm) ++ [lastErr])%list
     else reloadConfig fuel cm = Parked cm' /\
          pendingSend cm' = Some lastErr /\
          errorChan cm' = errorChan cm).
Proof.
  intros fuel cm n HM Hn Hmax Hm Hfail Hf cm' lastErr.
  pose proof (reloadConfig_all_fail fuel cm n HM Hmax Hm Hfail Hf) as H.
  simpl in H.
  assert (HE : lastError (loader cm) (loaderCalls cm) n None = lastErr).
  { unfold lastErr. destruct n as [|n]; [lia|]. unfold lastError.
    now replace (loaderCalls cm + S n - 1)%nat with (loaderCalls cm + n)%nat by lia. }
  rewrite HE in H. clear HE.
  assert (HT : newEvents cm cm' =
    (retryEvents (loader cm) (Timeout (retryPolicy cm)) (loaderCalls cm) 1 n
     ++ EvSendError lastErr
        :: (if hasRoom (errorChan cm)
            then [reloadFailedLog (loader cm) lastErr]
            else []))%list).
  { apply newEvents_app. unfold cm'. rewrite H.
    destruct (hasRoom (errorChan cm)); simpl;
      repeat rewrite <- app_assoc; reflexivity. }
  split; [exact HT|]. rewrite HT.
  repeat rewrite filter_app. rewrite retryEvents_no_send.
  rewrite length_app, retryEvents_loads.
  split; [destruct (hasRoom (errorChan cm)); simpl; lia|].
  split; [unfold cm'; rewrite H; destruct (hasRoom (errorChan cm)); reflexivity|].
  split; [destruct (hasRoom (errorChan cm)); reflexivity|].
  unfold cm'. rewrite H.
  destruct (hasRoom (errorChan cm)); simpl; auto.
Qed.

Lemma reloadConfig_retry_bound_witness :
  let cm' := state_of (reloadConfig 10 watchingManager) in
  let lastErr := Some "yaml parsing error" in
  newEvents watchingManager cm' =
    (retryEvents flakyLoader 10000000 1 1 3
     ++ [EvSendError lastErr; reloadFailedLog flakyLoader lastErr])%list /\
  List.length (filter isLoadConfig (newEvents watchingManager cm')) = 3%nat /\
  loaderCalls cm' = 4%nat /\
  List.length (filter isSendError (newEvents watchingManager cm')) = 1%nat /\
  reloadConfig 10 watchingManager = Returned tt cm' /\
  buf (errorChan cm') = [lastErr].
Proof.
  apply (reloadConfig_retry_bound 10%nat watchingManager 3%nat);
    try reflexivity; try (simpl; lia).
  intros i Hi. simpl in Hi. destruct i as [|i]; [lia|]. simpl. discriminate.
Defined.

Lemma reloadLoop_counts fuel :
  forall attempt err cm,
    (loaderCalls cm <= loaderCalls (state_of (reloadLoop fuel attempt err cm)))%nat.
Proof.
  induction fuel as [|fuel IH]; intros attempt err cm; simpl; auto.
  unfold_m.
  destruct (attempt <=? MaxAttempts (retryPolicy cm)); simpl; auto.
  unfold callLoadConfig.
  destruct (LoadConfig (loader cm) (loaderCalls cm)) as [p [e|]]; simpl; auto.
  match goal with
  | |- context [reloadLoop fuel ?a ?e ?c] =>
      specialize (IH a e c); destruct (reloadLoop fuel a e c)
  end; simpl in *; lia.
Qed.

Lemma reloadLoop_failing fuel :
  forall attempt err cm,
    attemptsFail cm (state_of (reloadLoop fuel attempt err cm)) ->
    match reloadLoop fuel attempt err cm with
    | Returned (Exhausted _) cm' | OutOfFuel cm' =>
        config cm' = config cm /\ rwMutex cm' = rwMutex cm
    | _ => False
    end.
Proof.
  induction fuel as [|fuel IH]; intros attempt err cm; simpl; auto.
  unfold_m.
  destruct (attempt <=? MaxAttempts (retryPolicy cm)); auto.
  unfold callLoadConfig.
  destruct (LoadConfig (loader cm) (loaderCalls cm)) as [p [e|]] eqn:HL; simpl.
  - intros Hfail.
    match goal with
    | |- match reloadLoop fuel ?a ?e ?c with _ => _ end =>
        specialize (IH a e c)
    end.
    apply IH. intros i Hi. apply Hfail. simpl in Hi. lia.
  - intros Hfail. specialize (Hfail (loaderCalls cm)). simpl in Hfail.
    rewrite HL in Hfail. apply Hfail; [lia|reflexivity].
Qed.

Lemma reloadConfig_counts fuel cm :
  rwMutex cm = false ->
  loaderCalls (state_of (reloadConfig fuel cm))
  = loaderCalls (state_of (reloadLoop fuel 1 None (set_rwMutex true cm))).
Proof.
  intros Hm. unfold reloadConfig, Lock. unfold bind at 1. rewrite Hm.
  unfold deferred. unfold bind at 1.
  destruct (reloadLoop fuel 1 None (set_rwMutex true cm)) as [[|err] c| | |];
    simpl; auto.
  unfold sendError, reloadFailed. unfold_m. simpl.
  destruct (Nat.ltb _ _); reflexivity.
Qed.

Lemma GetConfig_returns cm p :
  GetConfig cm = Returned p cm <-> rwMutex cm = false /\ config cm = Some p.
Proof.
  unfold GetConfig, RLock. unfold_m.
  destruct (rwMutex cm); [split; [discriminate|intros [? _]; discriminate]|].
  destruct (config cm) as [q|]; split.
  - intros H. inversion H. auto.
  - intros [_ H]. inversion H. reflexivity.
  - discriminate.
  - intros [_ H]. discriminate.
Qed.

(** C3.  When every LoadConfig call a reload makes fails, the stored
    snapshot is the same at every point the reload can have reached
    (whatever the fuel, so after any number of attempts, and whether it
    returned or waits in its send), and once reloadConfig has returned
    GetConfig returns what it returned before the reload. *)
Theorem reload_failure_keeps_snapshot :
  forall fuel cm,
    attemptsFail cm (state_of (reloadConfig fuel cm)) ->
    config (state_of (reloadConfig fuel cm)) = config cm /\
    forall p cm',
      GetConfig cm = Returned p cm ->
      reloadConfig fuel cm = Returned tt cm' ->
      GetConfig cm' = Returned p cm'.
Proof.
  intros fuel cm Hfail.
  assert (H : match reloadConfig fuel cm with
              | Returned _ cm' => config cm' = config cm /\ rwMutex cm' = false
              | Panicked _ _ => False
              | Parked cm' | OutOfFuel cm' => config cm' = config cm
              end).
  { destruct (rwMutex cm) eqn:Hm.
    - unfold reloadConfig, Lock. unfold bind at 1. now rewrite Hm.
    - unfold attemptsFail in Hfail. rewrite reloadConfig_counts in Hfail by assumption.
      unfold reloadConfig, Lock. unfold bind at 1. rewrite Hm.
      unfold deferred. unfold bind at 1.
      pose proof (reloadLoop_failing fuel 1 None (set_rwMutex true cm) Hfail) as HL.
      destruct (reloadLoop fuel 1 None (set_rwMutex true cm)) as [[|err] c| | |];
        try contradiction; [|apply HL].
      destruct HL as [Hc _].
      unfold sendError, reloadFailed. unfold_m. simpl.
      destruct (Nat.ltb _ _); simpl; auto. }
  split.
  - destruct (reloadConfig fuel cm); simpl; tauto.
  - intros p cm' HG HR. rewrite HR in H. destruct H as [Hc Hm].
    apply GetConfig_returns in HG. apply GetConfig_returns.
    split; [assumption|]. rewrite Hc. apply HG.
Qed.

Lemma reload_failure_keeps_snapshot_witness :
  config (state_of (reloadConfig 10 watchingManager)) = config watchingManager /\
  GetConfig (state_of (reloadConfig 10 watchingManager))
    = Returned (Some demoConf) (state_of (reloadConfig 10 watchingManager)).
Proof.
  assert (Hfail : attemptsFail watchingManager
                    (state_of (reloadConfig 10 watchingManager))).
  { intros i Hi. destruct i as [|i]; [vm_compute in Hi; lia|discriminate]. }
  destruct (reload_failure_keeps_snapshot 10%nat watchingManager Hfail) as [H1 H2].
  split; [exact H1|].
  apply (H2 (Some demoConf)); vm_compute; reflexivity.
Defined.

(* A reload that fails twice and then succeeds: three LoadConfig calls, two
   sleeps, the new snapshot published, nothing sent on the error channel. *)
Example reload_third_attempt_succeeds :
  let cm := state_of (Init (NewConfigManager recoveringLoader (Some okWatcher) threeTries)) in
  let cm' := state_of (reloadConfig 10 cm) in
  reloadConfig 10 cm = Returned tt cm' /\
  GetConfig cm' = Returned (Some otherConf) cm' /\
  List.length (filter isLoadConfig (newEvents cm cm')) = 3%nat /\
  filter isSendError (newEvents cm cm') = [] /\
  buf (errorChan cm') = [].
Proof. vm_compute. repeat split. Qed.

(** ** Event filter *)

Lemma land_Write op : Z.land op Write = if Z.testbit op 1 then 2 else 0.
Proof.
  apply Z.bits_inj'. intros n Hn.
  rewrite Z.land_spec. change Write with (2 ^ 1).
  rewrite Z.pow2_bits_eqb by lia.
  destruct (Z.eqb_spec 1 n) as [<-|Hne].
  - destruct (Z.testbit op 1); reflexivity.
  - rewrite andb_false_r.
    destruct (Z.testbit op 1); [|now rewrite Z.bits_0].
    change 2 with (2 ^ 1). rewrite Z.pow2_bits_eqb by lia.
    symmetry. now apply Z.eqb_neq.
Qed.

Lemma write_test event :
  (Z.land (Op event) Write =? Write) = includesWrite event.
Proof.
  unfold includesWrite. rewrite land_Write.
  destruct (Z.testbit (Op event) 1); reflexivity.
Qed.

Lemma reloadConfig_calls_loader fuel cm :
  rwMutex cm = false ->
  1 <= MaxAttempts (retryPolicy cm) ->
  (0 < fuel)%nat ->
  (loaderCalls cm < loaderCalls (state_of (reloadConfig fuel cm)))%nat.
Proof.
  intros Hm HM Hf. destruct fuel as [|fuel]; [lia|].
  unfold reloadConfig, Lock. unfold bind at 1. rewrite Hm.
  unfold deferred. unfold bind at 1. simpl reloadLoop. unfold_m.
  change (retryPolicy (set_rwMutex true cm)) with (retryPolicy cm).
  replace (1 <=? MaxAttempts (retryPolicy cm)) with true
    by (symmetry; apply Z.leb_le; lia).
  unfold callLoadConfig.
  change (loader (set_rwMutex true cm)) with (loader cm).
  change (loaderCalls (set_rwMutex true cm)) with (loaderCalls cm).
  destruct (LoadConfig (loader cm) (loaderCalls cm)) as [p [e|]]; simpl; auto.
  match goal with
  | |- context [reloadLoop fuel ?a ?e ?c] =>
      pose proof (reloadLoop_counts fuel a e c) as HC;
      destruct (reloadLoop fuel a e c) as [[|err] c'| | |]
  end; simpl in *; try lia.
  unfold sendError. destruct (Nat.ltb _ _); simpl; lia.
Qed.

(** C6.  processFSNotifyEvent runs reloadConfig exactly when the event's
    operation includes the write bit, and otherwise returns at once leaving
    the manager untouched; in particular an event made only of create,
    remove, rename and chmod bits does nothing.  With the lock free and
    MaxAttempts >= 1, LoadConfig is called if and only if the write bit is
    set. *)
Theorem processFSNotifyEvent_reloads_on_write :
  forall fuel event cm,
    rwMutex cm = false ->
    1 <= MaxAttempts (retryPolicy cm) ->
    (0 < fuel)%nat ->
    processFSNotifyEvent fuel event cm
      = (if includesWrite event then reloadConfig fuel cm else Returned tt cm) /\
    (includesWrite event = true <->
     (loaderCalls cm
        < loaderCalls (state_of (processFSNotifyEvent fuel event cm)))%nat) /\
    (forall create remove rename chmod,
       Op event = nonWriteOp create remove rename chmod ->
       processFSNotifyEvent fuel event cm = Returned tt cm).
Proof.
  intros fuel event cm Hm HM Hf.
  assert (HP : processFSNotifyEvent fuel event cm
      = (if includesWrite event then reloadConfig fuel cm else Returned tt cm)).
  { unfold processFSNotifyEvent. rewrite write_test.
    destruct (includesWrite event); reflexivity. }
  split; [exact HP|]. split.
  - rewrite HP. destruct (includesWrite event); simpl.
    + split; auto. intros _. now apply reloadConfig_calls_loader.
    + split; [discriminate|lia].
  - intros c rm rn ch HO. rewrite HP. unfold includesWrite. rewrite HO.
    destruct c, rm, rn, ch; reflexivity.
Qed.

Lemma processFSNotifyEvent_reloads_on_write_witness :
  let event := mkEvent "conf.yaml" (Z.lor Write Chmod) in
  processFSNotifyEvent 10 event watchingManager
    = (if includesWrite event
       then reloadConfig 10 watchingManager
       else Returned tt watchingManager) /\
  (includesWrite event = true <->
   (loaderCalls watchingManager
      < loaderCalls (state_of (processFSNotifyEvent 10 event watchingManager)))%nat) /\
  (forall create remove rename chmod,
     Op event = nonWriteOp create remove rename chmod ->
     processFSNotifyEvent 10 event watchingManager = Returned tt watchingManager).
Proof.
  apply (processFSNotifyEvent_reloads_on_write 10%nat
           (mkEvent "conf.yaml" (Z.lor Write Chmod)) watchingManager).
  - reflexivity.
  - vm_compute. discriminate.
  - apply Nat.lt_0_succ.
Defined.

(** ** GetConfig *)

Lemma GetConfig_without_snapshot cm :
  config cm = None -> rwMutex cm = false ->
  GetConfig cm = Panicked nil_conversion cm.
Proof.
  intros Hc Hm. unfold GetConfig, RLock. unfold_m. now rewrite Hm, Hc.
Qed.

Lemma GetConfig_with_snapshot cm p :
  config cm = Some p ->
  GetConfig cm = Returned p cm \/ (rwMutex cm = true /\ GetConfig cm = Parked cm).
Proof.
  intros Hc. unfold GetConfig, RLock. unfold_m.
  destruct (rwMutex cm); [right; auto|left]. now rewrite Hc.
Qed.

Lemma first_Init_success cm cm1 :
  once cm = false -> Init cm = Returned None cm1 ->
  snapshotReady (loader cm) cm1.
Proof.
  intros Ho. rewrite Init_first_call by assumption.
  unfold loadAndWatchConfig, callLoadConfig, watcherAdd. unfold_m.
  destruct (LoadConfig (loader cm) (loaderCalls cm)) as [p [e|]] eqn:HL; simpl.
  - discriminate.
  - destruct (watcher cm) as [w|]; simpl; [|discriminate].
    destruct (wAdd w _ _); simpl; [discriminate|].
    intros H. inversion H. subst cm1. unfold snapshotReady. simpl.
    split; [reflexivity|]. exists p. split; [reflexivity|].
    intros HC. exact (HC _ _ HL).
Qed.

Lemma snapshotReady_run l fuel calls cm :
  snapshotReady l cm -> snapshotReady l (run fuel calls cm).
Proof.
  apply (run_Inv (snapshotReady l) (fun p => honoursContract l -> p <> None)).
  - intros c c' Hl Hc _ _ [H1 H2]. unfold snapshotReady.
    rewrite Hl, Hc. auto.
  - intros c H. exact H.
  - intros p c [H1 H2] HG. unfold snapshotReady. simpl. split; auto.
    exists p. auto.
  - intros c i p [H1 _] HL HC. rewrite H1 in HL. exact (HC _ _ HL).
Qed.

(** C8 (as amended).  GetConfig panics on a manager that holds no snapshot.
    Once the first Init call of a manager has returned nil, then after any
    further activity a snapshot is stored and GetConfig returns it, or waits
    while a reload holds the lock; it never panics.  The snapshot is not the
    nil pointer provided the loader never returns a nil configuration with a
    nil error. *)
Theorem GetConfig_after_first_Init :
  forall cm cm1 fuel calls,
    once cm = false ->
    Init cm = Returned None cm1 ->
    (forall cm0, config cm0 = None -> rwMutex cm0 = false ->
       GetConfig cm0 = Panicked nil_conversion cm0) /\
    let cm2 := run fuel calls cm1 in
    exists p,
      config cm2 = Some p /\
      (GetConfig cm2 = Returned p cm2 \/
       (rwMutex cm2 = true /\ GetConfig cm2 = Parked cm2)) /\
      (honoursContract (loader cm) -> p <> None).
Proof.
  intros cm cm1 fuel calls Ho HI. split.
  - intros cm0. apply GetConfig_without_snapshot.
  - intros cm2.
    destruct (snapshotReady_run (loader cm) fuel calls cm1
                (first_Init_success cm cm1 Ho HI)) as [_ (p & Hp & HG)].
    exists p. split; [exact Hp|]. split; [|exact HG].
    now apply GetConfig_with_snapshot.
Qed.

Lemma GetConfig_after_first_Init_witness :
  let cm2 :=
    run 10 [LoopSelect (EventsRecv (Some (mkEvent "conf.yaml" Write)));
            CallGetConfig; RecvError; CallInit]
      watchingManager in
  exists p,
    config cm2 = Some p /\
    (GetConfig cm2 = Returned p cm2 \/
     (rwMutex cm2 = true /\ GetConfig cm2 = Parked cm2)) /\
    (honoursContract flakyLoader -> p <> None).
Proof.
  apply (GetConfig_after_first_Init
           (NewConfigManager flakyLoader (Some okWatcher) threeTries)
           watchingManager 10%nat
           [LoopSelect (EventsRecv (Some (mkEvent "conf.yaml" Write)));
            CallGetConfig; RecvError; CallInit]);
    reflexivity.
Defined.

(** C8 (as stated) fails: after a first Init that failed, a second Init
    returns nil, and GetConfig still panics. *)
Lemma GetConfig_panics_after_later_Init :
  Init (state_of (Init failingManager))
    = Returned None (state_of (Init failingManager)) /\
  GetConfig (state_of (Init failingManager))
    = Panicked nil_conversion (state_of (Init failingManager)).
Proof. split; reflexivity. Qed.

(** ** The configuration channel *)

(** C9.  NewConfigManager allocates configChan with capacity 1 and empty,
    and nothing the manager does changes what it holds: not Init, not the
    event loop, not a reload, not AddWatcher or RemoveWatcher, and not any
    run made of them. *)
Theorem configChan_is_never_sent_on :
  forall l w rp cm fuel calls script event filePath,
    configChan (NewConfigManager l w rp) = mkChan 1 [] /\
    configChan (state_of (Init cm)) = configChan cm /\
    configChan (state_of (handleFSNotify fuel script cm)) = configChan cm /\
    configChan (state_of (processFSNotifyEvent fuel event cm)) = configChan cm /\
    configChan (state_of (reloadConfig fuel cm)) = configChan cm /\
    configChan (state_of (AddWatcher filePath cm)) = configChan cm /\
    configChan (state_of (RemoveWatcher filePath cm)) = configChan cm /\
    configChan (run fuel calls cm) = configChan cm.
Proof.
  intros l w rp cm fuel calls script event filePath.
  set (Inv := fun c => configChan c = configChan cm).
  assert (Hframe : forall c c', loader c' = loader c -> config c' = config c ->
            configChan c' = configChan c -> once c' = once c -> Inv c -> Inv c')
    by (unfold Inv; intros c c' _ _ Hc _ H; now rewrite Hc).
  assert (Honce : forall c, Inv c -> Inv (set_once true c)) by auto.
  assert (Hstore : forall p c, Inv c -> True -> Inv (set_config (Some p) c)) by auto.
  assert (Hload : forall c (i : nat) (p : ConfPtr),
            Inv c -> LoadConfig (loader c) i = (p, None) -> True) by auto.
  assert (H0 : Inv cm) by reflexivity.
  split; [reflexivity|].
  split; [apply (keeps_state Inv _ _ _
            (keeps_Init Inv (fun _ => True) Hframe Honce Hstore Hload) H0)|].
  split; [apply (keeps_state Inv _ _ _
            (keeps_handleFSNotify Inv (fun _ => True) Hframe Hstore Hload
               fuel script) H0)|].
  split; [apply (keeps_state Inv _ _ _
            (keeps_processFSNotifyEvent Inv (fun _ => True) Hframe Hstore Hload
               fuel event) H0)|].
  split; [apply (keeps_state Inv _ _ _
            (keeps_reloadConfig Inv (fun _ => True) Hframe Hstore Hload fuel) H0)|].
  split; [apply (keeps_state Inv _ _ _
            (keeps_AddWatcher Inv Hframe filePath) H0)|].
  split; [apply (keeps_state Inv _ _ _
            (keeps_RemoveWatcher Inv Hframe filePath) H0)|].
  apply (run_Inv Inv (fun _ => True) Hframe Honce Hstore Hload fuel calls cm H0).
Qed.

(** ** NewParser *)

(** C10.  With a logger, NewParser returns a JSONParser when the extension,
    a dot put in front if it has none, is ".json", a YAMLParser when it is
    ".yaml" or ".yml", and otherwise the error "unsupported file extension: "
    followed by that extension, with no parser.  Without a logger it returns
    an error and no parser, whatever the extension. *)
Theorem NewParser_by_extension :
  forall fileExtension lg,
    let ext := normalized fileExtension in
    (ext = ".json" ->
       NewParser fileExtension (Some lg) = (Some (JSONParser lg), None)) /\
    (ext = ".yaml" \/ ext = ".yml" ->
       NewParser fileExtension (Some lg) = (Some (YAMLParser lg), None)) /\
    (ext <> ".json" -> ext <> ".yaml" -> ext <> ".yml" ->
       NewParser fileExtension (Some lg)
         = (None, Some ("unsupported file extension: " ++ ext))) /\
    NewParser fileExtension None = (None, Some "logger is required").
Proof.
  intros fileExtension lg ext.
  assert (HN : NewParser fileExtension (Some lg) =
    if String.eqb ext ".json" then (Some (JSONParser lg), None)
    else if String.eqb ext ".yaml" || String.eqb ext ".yml"
    then (Some (YAMLParser lg), None)
    else (None, Some ("unsupported file extension: " ++ ext))).
  { unfold ext, normalized, NewParser.
    destruct (HasPrefix fileExtension "."); reflexivity. }
  rewrite HN. clear HN.
  destruct (String.eqb_spec ext ".json") as [Hj|Hj];
    destruct (String.eqb_spec ext ".yaml") as [Hy|Hy];
    destruct (String.eqb_spec ext ".yml") as [Hm|Hm]; simpl;
    repeat split; try reflexivity; try congruence;
    try (intros [H|H]; congruence).
Qed.

Lemma NewParser_by_extension_witness :
  NewParser "json" (Some (zapLogger "app")) = (Some (JSONParser (zapLogger "app")), None) /\
  NewParser ".yml" (Some (zapLogger "app")) = (Some (YAMLParser (zapLogger "app")), None) /\
  NewParser "xml" (Some (zapLogger "app"))
    = (None, Some "unsupported file extension: .xml").
Proof.
  split; [|split].
  - apply (NewParser_by_extension "json" (zapLogger "app")). reflexivity.
  - apply (NewParser_by_extension ".yml" (zapLogger "app")). right. reflexivity.
  - apply (NewParser_by_extension "xml" (zapLogger "app")); discriminate.
Defined.

(** * Further properties *)

(** ** Init: the successful path and the nil watcher *)

(** X1.  A first Init whose load and watch registration both succeed returns
    nil after exactly three effects: the LoadConfig call, Watcher.Add on the
    loader's path, and the go statement.  The snapshot is stored, the once
    flag is set, the background task is running and GetConfig returns the
    loaded snapshot. *)
Theorem Init_success :
  forall cm p w,
    once cm = false ->
    rwMutex cm = false ->
    LoadConfig (loader cm) (loaderCalls cm) = (p, None) ->
    watcher cm = Some w ->
    wAdd w (watcherCalls cm) (GetConfigPath (loader cm)) = None ->
    exists cm',
      Init cm = Returned None cm' /\
      trace cm' = (trace cm ++
        [EvLoadConfig (p, None);
         EvWatcherAdd (GetConfigPath (loader cm)) None;
         EvGo])%list /\
      eventLoop cm' = Running /\
      once cm' = true /\
      watcher cm' = Some w /\
      GetConfig cm' = Returned p cm'.
Proof.
  intros cm p w Ho Hm HL Hw HA.
  rewrite Init_first_call by assumption.
  unfold loadAndWatchConfig, callLoadConfig, watcherAdd. unfold_m.
  rewrite HL. simpl. rewrite Hw. simpl. rewrite HA. simpl.
  eexists. split; [reflexivity|]. simpl.
  repeat rewrite <- app_assoc. repeat split; auto.
  unfold GetConfig, RLock. unfold_m. simpl. now rewrite Hm.
Qed.

Lemma Init_success_witness :
  exists cm',
    Init (NewConfigManager flakyLoader (Some okWatcher) threeTries)
      = Returned None cm' /\
    trace cm' =
      [EvLoadConfig (Some demoConf, None); EvWatcherAdd "conf.yaml" None; EvGo] /\
    eventLoop cm' = Running /\
    once cm' = true /\
    watcher cm' = Some okWatcher /\
    GetConfig cm' = Returned (Some demoConf) cm'.
Proof.
  apply (Init_success (NewConfigManager flakyLoader (Some okWatcher) threeTries)
           (Some demoConf) okWatcher); reflexivity.
Defined.

(** X2.  On a manager built with a nil watcher, a first Init whose load
    succeeds panics in cm.watcher.Add: by then the snapshot is stored, no
    background task is started, and the once flag is consumed, so a later
    Init returns nil without doing anything. *)
Theorem Init_nil_watcher_panics :
  forall cm p,
    once cm = false ->
    LoadConfig (loader cm) (loaderCalls cm) = (p, None) ->
    watcher cm = None ->
    exists cm',
      Init cm = Panicked nil_deref cm' /\
      config cm' = Some p /\
      trace cm' = (trace cm ++ [EvLoadConfig (p, None)])%list /\
      eventLoop cm' = eventLoop cm /\
      Init cm' = Returned None cm'.
Proof.
  intros cm p Ho HL Hw.
  rewrite Init_first_call by assumption.
  unfold loadAndWatchConfig, callLoadConfig, watcherAdd. unfold_m.
  rewrite HL. simpl. rewrite Hw. simpl.
  eexists. split; [reflexivity|]. simpl. repeat split; auto.
Qed.

Lemma Init_nil_watcher_panics_witness :
  exists cm',
    Init (NewConfigManager flakyLoader None threeTries) = Panicked nil_deref cm' /\
    config cm' = Some (Some demoConf) /\
    trace cm' = [EvLoadConfig (Some demoConf, None)] /\
    eventLoop cm' = NotStarted /\
    Init cm' = Returned None cm'.
Proof.
  apply (Init_nil_watcher_panics (NewConfigManager flakyLoader None threeTries)
           (Some demoConf)); reflexivity.
Defined.

(** ** AddWatcher and RemoveWatcher with a live watcher *)

(** X3.  With a watcher present and the lock free, AddWatcher makes exactly
    one Watcher.Add call with the given path and returns whatever that call
    returns, error or nil; RemoveWatcher does the same with Watcher.Remove.
    Both leave the lock free and the snapshot, the channels and the once
    flag untouched, and neither needs Init to have run.  While the write
    lock is held both wait without calling the watcher. *)
Theorem watch_management_delegates :
  forall filePath cm w,
    watcher cm = Some w ->
    (rwMutex cm = false ->
       AddWatcher filePath cm
         = Returned (wAdd w (watcherCalls cm) filePath)
             (bump_watcherCalls
                (emit (EvWatcherAdd filePath (wAdd w (watcherCalls cm) filePath)) cm)) /\
       RemoveWatcher filePath cm
         = Returned (wRemove w (watcherCalls cm) filePath)
             (bump_watcherCalls
                (emit (EvWatcherRemove filePath (wRemove w (watcherCalls cm) filePath)) cm))) /\
    (rwMutex cm = true ->
       AddWatcher filePath cm = Parked cm /\ RemoveWatcher filePath cm = Parked cm).
Proof.
  intros filePath cm w Hw.
  destruct cm as [l cfg cch ech wt m o rp tr lc wc el ps]. simpl in Hw. subst wt.
  split; simpl; intros ->; split; reflexivity.
Qed.

Lemma watch_management_delegates_witness :
  AddWatcher "extra.yaml" unwatchedManager
    = Returned (Some "too many open files")
        (bump_watcherCalls
           (emit (EvWatcherAdd "extra.yaml" (Some "too many open files"))
              unwatchedManager)) /\
  RemoveWatcher "extra.yaml" unwatchedManager
    = Returned (Some "too many open files")
        (bump_watcherCalls
           (emit (EvWatcherRemove "extra.yaml" (Some "too many open files"))
              unwatchedManager)).
Proof.
  apply (watch_management_delegates "extra.yaml" unwatchedManager brokenWatcher);
    reflexivity.
Defined.

(** ** NewParser: shape of the result *)

(** X4.  NewParser returns either a parser and a nil error, or no parser and
    an error, never both and never neither; a parser it returns holds the
    logger it was given. *)
Theorem NewParser_parser_xor_error :
  forall fileExtension logger,
    (fst (NewParser fileExtension logger) = None <->
     snd (NewParser fileExtension logger) <> None) /\
    (forall parser, fst (NewParser fileExtension logger) = Some parser ->
       exists lg, logger = Some lg /\
         (parser = JSONParser lg \/ parser = YAMLParser lg)).
Proof.
  intros fileExtension logger. unfold NewParser.
  destruct logger as [lg|]; simpl.
  - destruct (String.eqb _ ".json"); simpl.
    + split; [split; [discriminate|congruence]|].
      intros parser H. inversion H. eauto.
    + destruct (_ || _); simpl.
      * split; [split; [discriminate|congruence]|].
        intros parser H. inversion H. eauto.
      * split; [split; [discriminate|reflexivity]|]. discriminate.
  - split; [split; [discriminate|reflexivity]|]. discriminate.
Qed.

(** X5.  The leading dot is optional: NewParser gives the same result for an
    extension and for its normalised form, so "json" and ".json" select the
    same parser, and normalising twice changes nothing. *)
Theorem NewParser_dot_optional :
  forall fileExtension logger,
    NewParser (normalized fileExtension) logger = NewParser fileExtension logger /\
    normalized (normalized fileExtension) = normalized fileExtension.
Proof.
  intros fileExtension logger.
  assert (HP : HasPrefix (normalized fileExtension) "." = true).
  { unfold normalized. destruct (HasPrefix fileExtension ".") eqn:H; [exact H|].
    unfold HasPrefix. simpl. now destruct fileExtension. }
  assert (HN : normalized (normalized fileExtension) = normalized fileExtension)
    by (unfold normalized at 1; now rewrite HP).
  split; [|exact HN].
  unfold NewParser. destruct logger as [lg|]; [|reflexivity].
  rewrite HP. simpl.
  unfold normalized.
  destruct (HasPrefix fileExtension "."); reflexivity.
Qed.

(** ** Reload: recovery, bounds and back-pressure *)

Lemma lastError_shift l lc k p e err :
  LoadConfig l lc = (p, Some e) ->
  lastError l (S lc) k (Some e) = lastError l lc (S k) err.
Proof.
  intros HL. destruct k as [|k]; simpl.
  - now rewrite Nat.add_0_r, HL.
  - do 2 f_equal. lia.
Qed.

(* The first [k] passes of the retry loop when LoadConfig fails [k] times. *)
Lemma reloadLoop_after_failures k :
  forall fuel attempt err cm,
    allFail (loader cm) (loaderCalls cm) k ->
    min_int64 <= attempt ->
    attempt + Z.of_nat k - 1 <= MaxAttempts (retryPolicy cm) ->
    MaxAttempts (retryPolicy cm) < max_int64 ->
    reloadLoop (k + fuel) attempt err cm
    = reloadLoop fuel (attempt + Z.of_nat k)
        (lastError (loader cm) (loaderCalls cm) k err)
        (advance cm
           (retryEvents (loader cm) (Timeout (retryPolicy cm))
              (loaderCalls cm) attempt k) k).
Proof.
  induction k as [|k IH]; intros fuel attempt err cm Hfail Ha HM Hmax.
  - simpl. now rewrite advance_zero, Z.add_0_r.
  - change (S k + fuel)%nat with (S (k + fuel)). simpl reloadLoop. unfold_m.
    replace (attempt <=? MaxAttempts (retryPolicy cm)) with true
      by (symmetry; apply Z.leb_le; lia).
    unfold callLoadConfig.
    assert (Hi : snd (LoadConfig (loader cm) (loaderCalls cm)) <> None)
      by (apply Hfail; lia).
    destruct (LoadConfig (loader cm) (loaderCalls cm)) as [p [e|]] eqn:HL;
      [clear Hi|now elim Hi].
    simpl.
    change (GetConfigPath (loader (bump_loaderCalls (emit (EvLoadConfig (p, Some e)) cm))))
      with (GetConfigPath (loader cm)).
    change (Some e) with (snd (p, Some e)) at 2.
    rewrite failed_pass_advance.
    rewrite wrap64_small by lia.
    rewrite IH; simpl; try lia.
    + rewrite advance_advance.
      replace (loaderCalls cm + 1)%nat with (S (loaderCalls cm)) by lia.
      rewrite (lastError_shift _ _ _ p e err HL).
      replace (attempt + 1 + Z.of_nat k) with (attempt + Z.pos (Pos.of_succ_nat k)) by lia.
      reflexivity.
    + intros i Hi. apply Hfail. lia.
Qed.

(** X6.  A reload whose first k LoadConfig calls fail and whose next call
    succeeds, with k < MaxAttempts, returns after k + 1 calls: each failure
    is followed by an error log record and a sleep of Timeout, the new
    snapshot is stored and logged, nothing is sent on the error channel, the
    lock is released and GetConfig returns the new snapshot. *)
Theorem reloadConfig_recovers :
  forall fuel cm k p,
    rwMutex cm = false ->
    Z.of_nat k < MaxAttempts (retryPolicy cm) ->
    MaxAttempts (retryPolicy cm) < max_int64 ->
    allFail (loader cm) (loaderCalls cm) k ->
    LoadConfig (loader cm) (loaderCalls cm + k) = (p, None) ->
    (k < fuel)%nat ->
    exists cm',
      reloadConfig fuel cm = Returned tt cm' /\
      newEvents cm cm' =
        (retryEvents (loader cm) (Timeout (retryPolicy cm)) (loaderCalls cm) 1 k
         ++ [EvLoadConfig (p, None);
             EvLog InfoLevel "Config reloaded"
               [zapString "configPath" (GetConfigPath (loader cm))]])%list /\
      loaderCalls cm' = (loaderCalls cm + k + 1)%nat /\
      errorChan cm' = errorChan cm /\
      pendingSend cm' = pendingSend cm /\
      GetConfig cm' = Returned p cm'.
Proof.
  intros fuel cm k p Hm Hk Hmax Hfail HL Hf.
  replace fuel with (k + S (fuel - S k))%nat by lia.
  unfold reloadConfig, Lock. unfold bind at 1. rewrite Hm.
  unfold deferred. unfold bind at 1.
  rewrite (reloadLoop_after_failures k);
    [ | exact Hfail | unfold min_int64; lia
      | change (retryPolicy (set_rwMutex true cm)) with (retryPolicy cm); lia
      | exact Hmax ].
  remember (1 + Z.of_nat k) as a eqn:Ea.
  simpl reloadLoop. unfold_m. simpl.
  replace (a <=? MaxAttempts (retryPolicy cm)) with true
    by (symmetry; apply Z.leb_le; lia).
  unfold callLoadConfig. simpl. rewrite HL. simpl.
  eexists. split; [reflexivity|]. simpl.
  split; [apply newEvents_app; simpl; now repeat rewrite <- app_assoc|].
  split; [lia|]. split; [reflexivity|]. split; [reflexivity|].
  apply GetConfig_returns. simpl. auto.
Qed.

Lemma reloadConfig_recovers_witness :
  exists cm',
    reloadConfig 10 recoveringManager = Returned tt cm' /\
    newEvents recoveringManager cm' =
      (retryEvents recoveringLoader 10000000 1 1 2
       ++ [EvLoadConfig (Some otherConf, None);
           EvLog InfoLevel "Config reloaded" [zapString "configPath" "conf.yaml"]])%list /\
    loaderCalls cm' = 4%nat /\
    errorChan cm' = errorChan recoveringManager /\
    pendingSend cm' = pendingSend recoveringManager /\
    GetConfig cm' = Returned (Some otherConf) cm'.
Proof.
  apply (reloadConfig_recovers 10%nat recoveringManager 2%nat (Some otherConf));
    try reflexivity; try (vm_compute; lia).
  intros i Hi. vm_compute in Hi.
  destruct i as [|[|[|i]]]; try lia; discriminate.
Defined.

(** X7.  With MaxAttempts <= 0 the retry loop is never entered: a reload
    calls LoadConfig not at all and still sends on the error channel, and
    what it sends is the nil error. *)
Theorem reloadConfig_without_attempts :
  forall fuel cm,
    MaxAttempts (retryPolicy cm) <= 0 ->
    rwMutex cm = false ->
    (0 < fuel)%nat ->
    let cm' := state_of (reloadConfig fuel cm) in
    loaderCalls cm' = loaderCalls cm /\
    config cm' = config cm /\
    newEvents cm cm' =
      EvSendError None
        :: (if hasRoom (errorChan cm)
            then [reloadFailedLog (loader cm) None]
            else []) /\
    (if hasRoom (errorChan cm)
     then reloadConfig fuel cm = Returned tt cm' /\
          buf (errorChan cm') = (buf (errorChan cm) ++ [None])%list
     else reloadConfig fuel cm = Parked cm' /\ pendingSend cm' = Some None).
Proof.
  intros fuel cm HM Hm Hf cm'. unfold cm'. clear cm'.
  destruct fuel as [|fuel]; [lia|].
  assert (H : reloadConfig (S fuel) cm =
    let tried := emit (EvSendError None) (set_rwMutex true cm) in
    if hasRoom (errorChan cm)
    then Returned tt
           (Unlock
              (emit (reloadFailedLog (loader cm) None)
                 (set_errorChan
                    (mkChan (cap (errorChan cm)) (buf (errorChan cm) ++ [None]))
                    tried)))
    else Parked (set_pendingSend (Some None) tried)).
  { unfold reloadConfig, Lock. unfold bind at 1. rewrite Hm.
    unfold deferred. unfold bind at 1. simpl reloadLoop. unfold_m.
    change (retryPolicy (set_rwMutex true cm)) with (retryPolicy cm).
    replace (1 <=? MaxAttempts (retryPolicy cm)) with false
      by (symmetry; apply Z.leb_gt; lia).
    unfold sendError, reloadFailed, hasRoom. unfold_m. simpl.
    destruct (Nat.ltb _ _); reflexivity. }
  rewrite H. simpl.
  destruct (hasRoom (errorChan cm)); simpl; repeat split; auto;
    apply newEvents_app; simpl; now repeat rewrite <- app_assoc.
Qed.

Lemma reloadConfig_without_attempts_witness :
  let cm' := state_of (reloadConfig 1 noRetryManager) in
  loaderCalls cm' = loaderCalls noRetryManager /\
  config cm' = config noRetryManager /\
  newEvents noRetryManager cm' =
    [EvSendError None; reloadFailedLog flakyLoader None] /\
  reloadConfig 1 noRetryManager = Returned tt cm' /\
  buf (errorChan cm') = [None].
Proof.
  apply (reloadConfig_without_attempts 1%nat noRetryManager).
  - vm_compute. discriminate.
  - reflexivity.
  - apply Nat.lt_0_succ.
Defined.

Lemma reloadLoop_terminates fuel :
  forall attempt err cm,
    min_int64 <= attempt ->
    MaxAttempts (retryPolicy cm) < max_int64 ->
    Z.max 0 (MaxAttempts (retryPolicy cm) - attempt + 1) < Z.of_nat fuel ->
    match reloadLoop fuel attempt err cm with
    | Returned _ cm' =>
        (loaderCalls cm' <= loaderCalls cm
           + Z.to_nat (MaxAttempts (retryPolicy cm) - attempt + 1))%nat /\
        watcherCalls cm' = watcherCalls cm /\ watcher cm' = watcher cm
    | _ => False
    end.
Proof.
  induction fuel as [|fuel IH]; intros attempt err cm Ha Hmax Hf; [lia|].
  simpl reloadLoop. unfold_m.
  destruct (Z.leb_spec attempt (MaxAttempts (retryPolicy cm))) as [Hle|Hgt].
  - unfold callLoadConfig.
    destruct (LoadConfig (loader cm) (loaderCalls cm)) as [p [e|]]; simpl.
    + match goal with
      | |- match reloadLoop fuel ?a ?e ?c with _ => _ end =>
          specialize (IH a e c); destruct (reloadLoop fuel a e c)
      end; rewrite wrap64_small in IH by lia; simpl in IH;
        try (apply IH; lia).
      destruct IH as (H1 & H2 & H3); try lia.
      repeat split; auto. lia.
    + repeat split; auto. lia.
  - simpl. repeat split; auto. lia.
Qed.

(** X8.  Whatever the loader does, a reload ends after at most MaxAttempts
    LoadConfig calls (none if MaxAttempts <= 0): with MaxAttempts below the
    largest int and fuel above MaxAttempts the model never runs out of fuel,
    reloadConfig never panics, and it either returns or waits (for the lock,
    or in its send).  It never calls the watcher. *)
Theorem reloadConfig_bounded :
  forall fuel cm,
    MaxAttempts (retryPolicy cm) < max_int64 ->
    Z.max 0 (MaxAttempts (retryPolicy cm)) < Z.of_nat fuel ->
    let cm' := state_of (reloadConfig fuel cm) in
    (reloadConfig fuel cm = Returned tt cm' \/ reloadConfig fuel cm = Parked cm') /\
    (loaderCalls cm' <= loaderCalls cm + Z.to_nat (MaxAttempts (retryPolicy cm)))%nat /\
    watcherCalls cm' = watcherCalls cm /\
    watcher cm' = watcher cm.
Proof.
  intros fuel cm Hmax Hf cm'. unfold cm'. clear cm'.
  assert (H : match reloadConfig fuel cm with
              | Returned _ c | Parked c =>
                  (loaderCalls c <= loaderCalls cm
                     + Z.to_nat (MaxAttempts (retryPolicy cm)))%nat /\
                  watcherCalls c = watcherCalls cm /\ watcher c = watcher cm
              | _ => False
              end).
  { unfold reloadConfig, Lock. unfold bind at 1.
    destruct (rwMutex cm) eqn:Hm; [repeat split; auto; lia|].
    unfold deferred. unfold bind at 1.
    pose proof (reloadLoop_terminates fuel 1 None (set_rwMutex true cm)) as HT.
    change (retryPolicy (set_rwMutex true cm)) with (retryPolicy cm) in HT.
    replace (MaxAttempts (retryPolicy cm) - 1 + 1)
      with (MaxAttempts (retryPolicy cm)) in HT by lia.
    specialize (HT ltac:(unfold min_int64; lia) Hmax Hf).
    destruct (reloadLoop fuel 1 None (set_rwMutex true cm)) as [[|err] c| | |];
      try contradiction; simpl in HT.
    - exact HT.
    - unfold sendError, reloadFailed. unfold_m. simpl.
      destruct (Nat.ltb _ _); simpl; exact HT. }
  destruct (reloadConfig fuel cm) as [[] c| |c|]; try contradiction; simpl; auto.
Qed.

Lemma reloadConfig_bounded_witness :
  let cm' := state_of (reloadConfig 4 recoveringManager) in
  (reloadConfig 4 recoveringManager = Returned tt cm' \/
   reloadConfig 4 recoveringManager = Parked cm') /\
  (loaderCalls cm' <= loaderCalls recoveringManager + 3)%nat /\
  watcherCalls cm' = watcherCalls recoveringManager /\
  watcher cm' = watcher recoveringManager.
Proof.
  apply (reloadConfig_bounded 4%nat recoveringManager); vm_compute; reflexivity.
Defined.

(** X9.  Back-pressure.  When a reload exhausts its attempts while the error
    channel is full, reloadConfig waits in its send with the write lock
    held; until an observer receives from the channel, GetConfig,
    AddWatcher, RemoveWatcher and a further reloadConfig all wait as well.
    The receive takes the oldest queued error, lets the waiting error in
    behind the others and releases the lock; the snapshot is as before. *)
Theorem reloadConfig_blocked_send_holds_lock :
  forall fuel cm n x rest,
    MaxAttempts (retryPolicy cm) = Z.of_nat n ->
    Z.of_nat n < max_int64 ->
    rwMutex cm = false ->
    allFail (loader cm) (loaderCalls cm) n ->
    (n < fuel)%nat ->
    hasRoom (errorChan cm) = false ->
    buf (errorChan cm) = x :: rest ->
    let cm' := state_of (reloadConfig fuel cm) in
    let err := lastError (loader cm) (loaderCalls cm) n None in
    reloadConfig fuel cm = Parked cm' /\
    rwMutex cm' = true /\
    pendingSend cm' = Some err /\
    GetConfig cm' = Parked cm' /\
    (forall filePath,
       AddWatcher filePath cm' = Parked cm' /\
       RemoveWatcher filePath cm' = Parked cm') /\
    reloadConfig fuel cm' = Parked cm' /\
    rwMutex (recvError cm') = false /\
    pendingSend (recvError cm') = None /\
    buf (errorChan (recvError cm')) = (rest ++ [err])%list /\
    config (recvError cm') = config cm.
Proof.
  intros fuel cm n x rest HM Hmax Hm Hfail Hf Hroom Hbuf cm' err.
  pose proof (reloadConfig_all_fail fuel cm n HM Hmax Hm Hfail Hf) as H.
  simpl in H. rewrite Hroom in H. fold err in H.
  unfold cm'. rewrite H. simpl.
  split; [reflexivity|]. split; [reflexivity|]. split; [reflexivity|].
  split; [reflexivity|]. split; [intros filePath; split; reflexivity|].
  split; [reflexivity|].
  unfold recvError. simpl. rewrite Hbuf. simpl. auto.
Qed.

Lemma reloadConfig_blocked_send_holds_lock_witness :
  let cm' := state_of (reloadConfig 10 staleManager) in
  let err := Some "yaml parsing error" in
  reloadConfig 10 staleManager = Parked cm' /\
  rwMutex cm' = true /\
  pendingSend cm' = Some err /\
  GetConfig cm' = Parked cm' /\
  (forall filePath,
     AddWatcher filePath cm' = Parked cm' /\
     RemoveWatcher filePath cm' = Parked cm') /\
  reloadConfig 10 cm' = Parked cm' /\
  rwMutex (recvError cm') = false /\
  pendingSend (recvError cm') = None /\
  buf (errorChan (recvError cm')) = [err] /\
  config (recvError cm') = config staleManager.
Proof.
  apply (reloadConfig_blocked_send_holds_lock 10%nat staleManager 3%nat
           (Some "yaml parsing error") []);
    try reflexivity; try (vm_compute; lia).
  intros i Hi. vm_compute in Hi.
  destruct i as [|[|[|[|i]]]]; try lia; discriminate.
Defined.

(** ** The event loop *)

Lemma advance_emit cm e evs :
  advance (emit e cm) evs 0 = advance cm (e :: evs) 0.
Proof.
  unfold advance, emit. simpl. now rewrite <- app_assoc.
Qed.

(** X10.  Watcher errors and events without the write bit never reach the
    configuration: on a script made only of them the loop logs each watcher
    error, calls neither LoadConfig nor the watcher, sends nothing on the
    error channel, leaves the snapshot alone, and goes on waiting. *)
Theorem quiet_script_changes_nothing :
  forall fuel script cm w,
    watcher cm = Some w ->
    Forall quiet script ->
    handleFSNotify fuel script cm = Parked (advance cm (quietLog script) 0).
Proof.
  intros fuel script. induction script as [|r rest IH]; intros cm w Hw Hq.
  - simpl. unfold_m. rewrite Hw. now rewrite advance_zero.
  - inversion Hq as [|r' rest' Hr Hrest]; subst.
    simpl handleFSNotify. unfold bind at 1, get at 1. rewrite Hw.
    destruct r as [|[event|]|[err|]]; simpl in Hr; try contradiction.
    + unfold bind. unfold processFSNotifyEvent. rewrite write_test, Hr.
      unfold ret. now rewrite (IH cm w).
    + unfold logError, bind, modify.
      rewrite (IH _ w) by assumption. simpl quietLog.
      now rewrite advance_emit.
Qed.

Lemma quiet_script_changes_nothing_witness :
  handleFSNotify 10
    [ErrorsRecv (Some (Some "inotify overflow"));
     EventsRecv (Some (mkEvent "conf.yaml" (Z.lor Create Chmod)));
     EventsRecv (Some (mkEvent "conf.yaml" Remove))]
    watchingManager
  = Parked
      (advance watchingManager
         [EvLog ErrorLevel "Watcher error" [zapError (Some "inotify overflow")]] 0).
Proof.
  refine (quiet_script_changes_nothing 10%nat
            [ErrorsRecv (Some (Some "inotify overflow"));
             EventsRecv (Some (mkEvent "conf.yaml" (Z.lor Create Chmod)));
             EventsRecv (Some (mkEvent "conf.yaml" Remove))]
            watchingManager okWatcher eq_refl _).
  repeat constructor.
Defined.

(** X11.  Cancellation closes the watcher exactly once.  On the cancellation
    branch the loop logs that the watcher stopped, calls Watcher.Close once,
    logs a failure of Close without returning it, and clears the handle
    whether or not Close failed; the rest of the script is not read.  The
    snapshot and the error channel are untouched, and a second
    cleanupWatcher only writes its log record. *)
Theorem cancellation_closes_once :
  forall fuel rest cm w,
    watcher cm = Some w ->
    exists cm',
      handleFSNotify fuel (CtxDone :: rest) cm = Returned tt cm' /\
      newEvents cm cm' =
        (EvLog InfoLevel "Config watcher stopped"
           [zapString "configPath" (GetConfigPath (loader cm))]
         :: EvWatcherClose (wClose w (watcherCalls cm))
         :: match wClose w (watcherCalls cm) with
            | Some _ =>
                [EvLog ErrorLevel "Failed to close watcher"
                   [zapError (wClose w (watcherCalls cm))]]
            | None => []
            end) /\
      watcher cm' = None /\
      config cm' = config cm /\
      errorChan cm' = errorChan cm /\
      cleanupWatcher cm'
        = Returned tt
            (emit (EvLog InfoLevel "Config watcher stopped"
                     [zapString "configPath" (GetConfigPath (loader cm))]) cm').
Proof.
  intros fuel rest cm w Hw.
  destruct cm as [l cfg cch ech wt m o rp tr lc wc el ps]. simpl in Hw. subst wt.
  simpl. unfold cleanupWatcher, watcherClose. unfold_m. simpl.
  destruct (wClose w wc) eqn:HC; simpl; eexists; (split; [reflexivity|]);
    simpl; (split; [apply newEvents_app; simpl; now repeat rewrite <- app_assoc|]);
    auto.
Qed.

Lemma cancellation_closes_once_witness :
  exists cm',
    handleFSNotify 10 [CtxDone; EventsRecv (Some (mkEvent "conf.yaml" Write))]
      (set_watcher (Some brokenWatcher) watchingManager)
      = Returned tt cm' /\
    newEvents (set_watcher (Some brokenWatcher) watchingManager) cm' =
      [EvLog InfoLevel "Config watcher stopped" [zapString "configPath" "conf.yaml"];
       EvWatcherClose (Some "already closed");
       EvLog ErrorLevel "Failed to close watcher" [zapError (Some "already closed")]] /\
    watcher cm' = None /\
    config cm' = config watchingManager /\
    errorChan cm' = errorChan watchingManager /\
    cleanupWatcher cm'
      = Returned tt
          (emit (EvLog InfoLevel "Config watcher stopped"
                   [zapString "configPath" "conf.yaml"]) cm').
Proof.
  apply (cancellation_closes_once 10%nat
           [EventsRecv (Some (mkEvent "conf.yaml" Write))]
           (set_watcher (Some brokenWatcher) watchingManager) brokenWatcher).
  reflexivity.
Defined.

(** ** Every step of a run *)

Lemma Step_eq cm cm1 cm2 : Step cm cm1 -> cm1 = cm2 -> Step cm cm2.
Proof. intros H <-. exact H. Qed.

Lemma attemptEvents_retryish path timeout p e attempt :
  Forall retryish (attemptEvents path timeout (p, Some e) attempt).
Proof. repeat constructor. Qed.

(* The retry loop, whatever the loader does: some number of failed passes,
   and then out of fuel, attempts exhausted, or a successful load. *)
Lemma reloadLoop_summary fuel :
  forall attempt err cm,
    exists k evs,
      allFail (loader cm) (loaderCalls cm) k /\
      Forall retryish evs /\
      (reloadLoop fuel attempt err cm = OutOfFuel (advance cm evs k) \/
       (reloadLoop fuel attempt err cm
          = Returned (Exhausted (lastError (loader cm) (loaderCalls cm) k err))
              (advance cm evs k) /\
        (k = 0%nat -> (attempt <=? MaxAttempts (retryPolicy cm)) = false)) \/
       exists p,
         LoadConfig (loader cm) (loaderCalls cm + k) = (p, None) /\
         reloadLoop fuel attempt err cm
           = Returned EarlyReturn
               (emit (EvLog InfoLevel "Config reloaded"
                        [zapString "configPath" (GetConfigPath (loader cm))])
                  (loadStored p (advance cm evs k)))).
Proof.
  induction fuel as [|fuel IH]; intros attempt err cm.
  - exists 0%nat, []. split; [intros i Hi; lia|]. split; [constructor|].
    left. simpl. now rewrite advance_zero.
  - simpl reloadLoop. unfold_m.
    destruct (attempt <=? MaxAttempts (retryPolicy cm)) eqn:Hc.
    + unfold callLoadConfig.
      destruct (LoadConfig (loader cm) (loaderCalls cm)) as [p [e|]] eqn:HL; simpl.
      * change (GetConfigPath (loader (bump_loaderCalls (emit (EvLoadConfig (p, Some e)) cm))))
          with (GetConfigPath (loader cm)).
        set (att := attemptEvents (GetConfigPath (loader cm))
                      (Timeout (retryPolicy cm)) (p, Some e) attempt).
        assert (Hst :
          emit (EvSleep (Timeout (retryPolicy cm)))
            (emit (EvLog ErrorLevel "Error reloading config, retrying..."
                     [zapError (Some e); zapInt "attempt" attempt;
                      zapString "configPath" (GetConfigPath (loader cm))])
               (bump_loaderCalls (emit (EvLoadConfig (p, Some e)) cm)))
          = advance cm att 1)
          by exact (failed_pass_advance cm _ _ (p, Some e) attempt).
        destruct (IH (wrap64 (attempt + 1)) (Some e) (advance cm att 1))
          as (k & evs & Hfail & Hevs & Hout).
        simpl loader in *. simpl loaderCalls in *. simpl retryPolicy in *.
        replace (loaderCalls cm + 1)%nat with (S (loaderCalls cm)) in * by lia.
        exists (S k), (att ++ evs)%list.
        split.
        { intros i Hi. destruct (Nat.eq_dec i (loaderCalls cm)) as [->|Hne].
          - rewrite HL. discriminate.
          - apply Hfail. lia. }
        split; [apply Forall_app; split; [apply attemptEvents_retryish|exact Hevs]|].
        rewrite advance_advance in Hout.
        change (1 + k)%nat with (S k) in Hout.
        rewrite (lastError_shift _ _ _ p e err HL) in Hout.
        rewrite <- Hst in Hout. clear Hst.
        destruct Hout as [H|[[H _]|(q & Hq & H)]].
        -- left. exact H.
        -- right. left. split; [exact H|discriminate].
        -- right. right. exists q. split; [|exact H].
           rewrite <- Hq. f_equal. lia.
      * exists 0%nat, []. split; [intros i Hi; lia|]. split; [constructor|].
        right. right. exists p. rewrite Nat.add_0_r. split; [exact HL|].
        now rewrite advance_zero.
    + exists 0%nat, []. split; [intros i Hi; lia|]. split; [constructor|].
      right. left. simpl. rewrite advance_zero. auto.
Qed.

Lemma reloadConfig_Step fuel cm :
  eventLoop cm = Running -> Step cm (state_of (reloadConfig fuel cm)).
Proof.
  intros Hrun. unfold reloadConfig, Lock. unfold bind at 1.
  destruct (rwMutex cm) eqn:Hm; [apply StepNone|].
  unfold deferred. unfold bind at 1.
  destruct (reloadLoop_summary fuel 1 None (set_rwMutex true cm))
    as (k & evs & Hfail & Hevs & [H|[[H H0]|(p & Hp & H)]]); rewrite H; simpl.
  - now apply StepReloadOutOfFuel.
  - assert (H0' : k = 0%nat -> MaxAttempts (retryPolicy cm) < 1)
      by (intros Hk; apply H0 in Hk; simpl in Hk; apply Z.leb_gt in Hk; lia).
    unfold sendError, reloadFailed. unfold_m. simpl.
    fold (hasRoom (errorChan cm)).
    destruct (hasRoom (errorChan cm)) eqn:Hroom; simpl.
    + now apply StepReloadSent.
    + now apply StepReloadBlocked.
  - now apply StepReloaded.
Qed.

Lemma reloadConfig_keeps_watcher fuel cm :
  watcher (state_of (reloadConfig fuel cm)) = watcher cm.
Proof.
  unfold reloadConfig, Lock. unfold bind at 1.
  destruct (rwMutex cm); [reflexivity|].
  unfold deferred. unfold bind at 1.
  destruct (reloadLoop_summary fuel 1 None (set_rwMutex true cm))
    as (k & evs & _ & _ & [H|[[H _]|(p & _ & H)]]); rewrite H; simpl; auto.
  unfold sendError, reloadFailed. unfold_m. simpl.
  destruct (Nat.ltb _ _); reflexivity.
Qed.

Lemma reloadConfig_never_panics fuel cm :
  forall msg cm', reloadConfig fuel cm <> Panicked msg cm'.
Proof.
  intros msg cm'. unfold reloadConfig, Lock. unfold bind at 1.
  destruct (rwMutex cm); [discriminate|].
  unfold deferred. unfold bind at 1.
  destruct (reloadLoop_summary fuel 1 None (set_rwMutex true cm))
    as (k & evs & _ & _ & [H|[[H _]|(p & _ & H)]]); rewrite H; simpl;
    try discriminate.
  unfold sendError, reloadFailed. unfold_m. simpl.
  destruct (Nat.ltb _ _); discriminate.
Qed.

Lemma loopRound_Step fuel r cm : Step cm (loopRound fuel r cm).
Proof.
  unfold loopRound.
  destruct (eventLoop cm) eqn:Hrun; try apply StepNone.
  destruct (pendingSend cm) eqn:Hp; [apply StepNone|].
  simpl handleFSNotify. unfold bind at 1, get at 1.
  destruct (watcher cm) as [w|] eqn:Hw; [|now apply StepLoopCrashed].
  destruct r as [|[event|]|[err|]].
  - eapply Step_eq; [apply (StepCancelled cm w Hrun Hw)|].
    destruct cm as [l cfg cch ech wt m o rp tr lc wc el ps]. simpl in *. subst.
    unfold cleanupWatcher, watcherClose, closeLog. unfold_m. simpl.
    destruct (wClose w wc); reflexivity.
  - unfold bind. unfold processFSNotifyEvent.
    destruct (_ =? _).
    + pose proof (reloadConfig_Step fuel cm Hrun) as HS.
      pose proof (reloadConfig_keeps_watcher fuel cm) as HW.
      pose proof (reloadConfig_never_panics fuel cm) as HP.
      destruct (reloadConfig fuel cm) as [[] c|msg c|c|c]; simpl in *; auto.
      * unfold get, park. rewrite HW, Hw. exact HS.
      * now elim (HP msg c).
    + unfold ret, get, park. rewrite Hw. apply StepNone.
  - unfold logInfo, modify. now apply StepChannelClosed.
  - unfold logError, modify, bind, get, park. simpl. rewrite Hw.
    now apply StepWatcherError.
  - unfold logInfo, modify. now apply StepChannelClosed.
Qed.

Lemma step_Step fuel c cm : Step cm (step fuel c cm).
Proof.
  destruct c as [| | filePath | filePath | r |]; simpl.
  - (* Init *)
    unfold Init. unfold bind at 1, get at 1.
    destruct (once cm) eqn:Ho; [apply StepNone|].
    unfold deferred, loadAndWatchConfig, callLoadConfig, watcherAdd. unfold_m.
    destruct (LoadConfig (loader cm) (loaderCalls cm)) as [p [e|]] eqn:HL; simpl.
    + now apply StepInitLoadFailed.
    + destruct (watcher cm) as [w|] eqn:Hw; simpl.
      * destruct (wAdd w (watcherCalls cm) (GetConfigPath (loader cm))) eqn:HA;
          simpl.
        -- now apply (StepInitAddFailed cm p w).
        -- now apply (StepInitStarted cm p w).
      * now apply StepInitNoWatcher.
  - (* GetConfig *)
    unfold GetConfig, RLock. unfold_m.
    destruct (rwMutex cm); [apply StepNone|].
    destruct (config cm); apply StepNone.
  - (* AddWatcher *)
    unfold AddWatcher, Lock, watcherAdd. unfold_m.
    destruct (rwMutex cm) eqn:Hm; [apply StepNone|]. simpl.
    destruct (watcher cm) as [w|] eqn:Hw; simpl.
    + eapply Step_eq;
        [apply (StepWatcherCall cm w
                  (EvWatcherAdd filePath (wAdd w (watcherCalls cm) filePath)) Hw Hm I)|].
      destruct cm. simpl in *. now subst.
    + eapply Step_eq; [apply StepNone|]. destruct cm. simpl in *. now subst.
  - (* RemoveWatcher *)
    unfold RemoveWatcher, Lock, watcherRemove. unfold_m.
    destruct (rwMutex cm) eqn:Hm; [apply StepNone|]. simpl.
    destruct (watcher cm) as [w|] eqn:Hw; simpl.
    + eapply Step_eq;
        [apply (StepWatcherCall cm w
                  (EvWatcherRemove filePath (wRemove w (watcherCalls cm) filePath)) Hw Hm I)|].
      destruct cm. simpl in *. now subst.
    + eapply Step_eq; [apply StepNone|]. destruct cm. simpl in *. now subst.
  - apply loopRound_Step.
  - (* a receive on the error channel *)
    unfold recvError.
    destruct (buf (errorChan cm)) as [|x rest] eqn:Hb; [apply StepNone|].
    destruct (pendingSend cm) as [e|] eqn:Hp.
    + unfold deferred, reloadFailed. unfold_m. simpl.
      now apply (StepRecvResume cm x rest e).
    + now apply (StepRecv cm x rest).
Qed.

(* A property that every step keeps holds after every run. *)
Lemma run_Step_invariant (Inv : CfgManager -> Prop) :
  (forall cm cm', Step cm cm' -> Inv cm -> Inv cm') ->
  forall fuel calls cm, Inv cm -> Inv (run fuel calls cm).
Proof.
  intros HS fuel calls. induction calls as [|c rest IH]; intros cm HI; simpl; auto.
  apply IH. apply (HS cm); [apply step_Step|exact HI].
Qed.

(** ** What holds along every run *)

Ltac step_cases HS :=
  inversion HS; subst; clear HS;
  unfold Unlock, loadStored, closeLog, advance, reloadFailedLog in *;
  repeat match goal with
         | |- context [match ?r with Some _ => _ | None => _ end] => destruct r
         end;
  simpl in *.

(** X12.  The error channel never holds more than one error: along every run
    of a manager made by NewConfigManager its capacity is 1 and at most one
    error is queued. *)
Theorem errorChan_never_overfull :
  forall l w rp fuel calls,
    let cm := run fuel calls (NewConfigManager l w rp) in
    cap (errorChan cm) = 1%nat /\
    (List.length (buf (errorChan cm)) <= 1)%nat.
Proof.
  intros l w rp fuel calls.
  apply (run_Step_invariant
           (fun cm => cap (errorChan cm) = 1%nat /\
                      (List.length (buf (errorChan cm)) <= 1)%nat)).
  - intros cm cm' HS [Hc Hb].
    step_cases HS; auto.
    + (* the send that finds room *)
      match goal with H : hasRoom _ = true |- _ =>
        unfold hasRoom in H; apply Nat.ltb_lt in H end.
      rewrite length_app. simpl. split; [assumption|lia].
    + match goal with H : buf _ = _ :: _ |- _ => rewrite H in Hb end.
      simpl in Hb. split; [assumption|lia].
    + match goal with H : buf _ = _ :: _ |- _ => rewrite H in Hb end.
      simpl in Hb. rewrite length_app. simpl. split; [assumption|lia].
  - simpl. auto.
Qed.

Lemma latest_retryish evs :
  Forall retryish evs -> forall acc, fold_left latest evs acc = acc.
Proof.
  induction 1 as [|e evs He _ IH]; intros acc; simpl; auto.
  rewrite IH. destruct e as [[p [e|]]| | | | | | |]; simpl in *; tauto.
Qed.

(** X13.  GetConfig serves the latest successful load.  Along every run of a
    manager made by NewConfigManager the stored snapshot is the one returned
    by the most recent LoadConfig call that returned no error, initial load
    or reload, and nothing is stored before the first such call; what
    GetConfig returns is that snapshot. *)
Theorem GetConfig_returns_latest_load :
  forall l w rp fuel calls,
    let cm := run fuel calls (NewConfigManager l w rp) in
    config cm = lastLoaded (trace cm) /\
    (forall p, GetConfig cm = Returned p cm -> lastLoaded (trace cm) = Some p).
Proof.
  intros l w rp fuel calls cm.
  assert (H : config cm = lastLoaded (trace cm)).
  { unfold cm.
    apply (run_Step_invariant (fun cm => config cm = lastLoaded (trace cm))).
    - intros c c' HS Hc. unfold lastLoaded in *.
      step_cases HS; repeat rewrite fold_left_app; simpl;
        try rewrite latest_retryish by assumption; auto.
      destruct ev; simpl in *; try contradiction; assumption.
    - reflexivity. }
  split; [exact H|].
  intros p HG. apply GetConfig_returns in HG. rewrite <- H. apply HG.
Qed.





(** X15.  Only load errors reach the error channel.  With MaxAttempts >= 1,
    along every run of a manager made by NewConfigManager every error queued
    on the error channel, and the error of a send that is waiting, is a
    non-nil error returned by LoadConfig: watcher errors are never forwarded
    and nil is never sent. *)
Theorem error_channel_carries_load_errors :
  forall l w rp fuel calls,
    1 <= MaxAttempts rp ->
    let cm := run fuel calls (NewConfigManager l w rp) in
    Forall (loadError l) (buf (errorChan cm)) /\
    (forall e, pendingSend cm = Some e -> loadError l e).
Proof.
  intros l w rp fuel calls HM cm.
  assert (H : loader cm = l /\ retryPolicy cm = rp /\
              Forall (loadError l) (buf (errorChan cm)) /\
              (forall e, pendingSend cm = Some e -> loadError l e)).
  { unfold cm.
    apply (run_Step_invariant
             (fun cm => loader cm = l /\ retryPolicy cm = rp /\
                        Forall (loadError l) (buf (errorChan cm)) /\
                        (forall e, pendingSend cm = Some e -> loadError l e))).
    - intros c c' HS (Hl & Hrp & Hb & Hp).
      assert (Hlast : forall k,
                allFail (loader c) (loaderCalls c) k ->
                (k = 0%nat -> MaxAttempts (retryPolicy c) < 1) ->
                loadError l (lastError (loader c) (loaderCalls c) k None)).
      { intros k Hfail Hk. rewrite Hrp in Hk.
        destruct k as [|k]; [specialize (Hk eq_refl); lia|].
        simpl. rewrite Hl in *. split; [apply Hfail; lia|eauto]. }
      step_cases HS; refine (conj _ (conj _ (conj _ _))); auto;
        try (intros e0 He0; discriminate He0);
        try match goal with H : buf _ = _ :: _ |- _ =>
              rewrite H in Hb; inversion Hb; subst
            end;
        try (apply Forall_app; split; [assumption|];
             constructor; [|constructor]);
        try (intros e0 He0; inversion He0; subst e0);
        try (apply Hlast; assumption);
        try (apply Hp; assumption);
        try assumption.
    - simpl. refine (conj eq_refl (conj eq_refl (conj (Forall_nil _) _))).
      discriminate. }
  split; apply H.
Qed.

Lemma error_channel_carries_load_errors_witness :
  let cm :=
    run 10
      [CallInit;
       LoopSelect (ErrorsRecv (Some (Some "inotify overflow")));
       LoopSelect (EventsRecv (Some (mkEvent "conf.yaml" Write)));
       LoopSelect (EventsRecv (Some (mkEvent "conf.yaml" Write)))]
      (NewConfigManager flakyLoader (Some okWatcher) threeTries) in
  Forall (loadError flakyLoader) (buf (errorChan cm)) /\
  (forall e, pendingSend cm = Some e -> loadError flakyLoader e).
Proof.
  apply (error_channel_carries_load_errors flakyLoader (Some okWatcher) threeTries
           10%nat).
  vm_compute. discriminate.
Defined.



(** X17.  A failed initial load is final.  If the first LoadConfig call
    fails, then after the first Init, whatever is called afterwards, Init
    included, LoadConfig is never called again, no snapshot is ever stored,
    Init returns nil and GetConfig panics. *)
Theorem failed_Init_is_final :
  forall l w rp fuel calls p e,
    LoadConfig l 0%nat = (p, Some e) ->
    let cm := run fuel calls (state_of (Init (NewConfigManager l w rp))) in
    loaderCalls cm = 1%nat /\
    config cm = None /\
    Init cm = Returned None cm /\
    GetConfig cm = Panicked nil_conversion cm.
Proof.
  intros l w rp fuel calls p e HL cm.
  assert (H : once cm = true /\ eventLoop cm = NotStarted /\ config cm = None /\
              rwMutex cm = false /\ pendingSend cm = None /\
              loaderCalls cm = 1%nat).
  { unfold cm.
    apply (run_Step_invariant
             (fun c => once c = true /\ eventLoop c = NotStarted /\
                       config c = None /\ rwMutex c = false /\
                       pendingSend c = None /\ loaderCalls c = 1%nat)).
    - intros c c' HS (I1 & I2 & I3 & I4 & I5 & I6).
      step_cases HS; repeat split; auto; congruence.
    - unfold Init, NewConfigManager, loadAndWatchConfig, callLoadConfig.
      unfold_m. simpl. rewrite HL. simpl. repeat split; auto. }
  destruct H as (H1 & H2 & H3 & H4 & H5 & H6).
  split; [exact H6|]. split; [exact H3|]. split.
  - now apply Init_when_done.
  - now apply GetConfig_without_snapshot.
Qed.

Lemma failed_Init_is_final_witness :
  let cm :=
    run 10 [CallInit; LoopSelect (EventsRecv (Some (mkEvent "conf.yaml" Write)));
            CallAddWatcher "conf.yaml"; RecvError]
      (state_of (Init failingManager)) in
  loaderCalls cm = 1%nat /\
  config cm = None /\
  Init cm = Returned None cm /\
  GetConfig cm = Panicked nil_conversion cm.
Proof.
  apply (failed_Init_is_final failingLoader (Some okWatcher) threeTries 10%nat
           [CallInit; LoopSelect (EventsRecv (Some (mkEvent "conf.yaml" Write)));
            CallAddWatcher "conf.yaml"; RecvError]
           None "open conf.yaml: no such file").
  reflexivity.
Defined.
